(** * A gRPC client proxy: shallow embedding of
      [packages/grpc/src/internal/client.ts]

    The proxy is driven by an event loop.  Every synchronous segment of the
    source (the code between two suspension points) is a computation in a
    state monad over the proxy's mutable fields, and [step] dispatches one
    event-loop turn to the segment that the source registered for it.  The
    continuation of an [await] runs in the turn that settles the awaited
    promise.  Everything the proxy does to its collaborators (metrics sink,
    tracer, transport) and to its caller (promise settlement) is appended, in
    program order, to one effect log. *)

From Stdlib Require Import ZArith Ascii String List Lia.
From stdpp Require Import base option list gmap strings.

Local Open Scope string_scope.
Local Open Scope list_scope.
Local Open Scope nat_scope.

(** ** Values and errors *)

(** Requests, responses and stream chunks are [any] in the source. *)
Inductive jsval :=
| VUndefined
| VNull
| VBool (b : bool)
| VNum (n : Z)
| VStr (s : string).

(** A JavaScript [Error]; transport errors carry a status code. *)
Record Error := mkError { err_message : string; err_code : option Z }.

(** [new Error("client-side streams are not supported")] (line 89). *)
Definition client_streams_unsupported : Error :=
  mkError "client-side streams are not supported" None.

Definition SpanContext := string.

(** ** Service definition and configuration *)

(** grpc's [MethodDefinition]: the fields the proxy reads. *)
Record MethodDefinition := {
  path : string;
  requestStream : bool;
  responseStream : bool;
  requestSerialize : jsval -> list Byte.byte;
  responseDeserialize : list Byte.byte -> jsval;
}.

(** [IGrpcClientConfiguration & IGrpcConfiguration].  [serviceDef] is the
    value of [createServiceDefinition(config.definition)], a helper that is
    not part of this file; it is taken as given. *)
Record Config := {
  endpoint : string;
  connectionTimeout : Z;
  requestTimeout : Z;
  serviceDef : gmap string MethodDefinition;
}.

(** ** Collaborators *)

(** A tracer is known by its identity and by the headers it injects for a
    span. *)
Record Tracer := {
  tracer_id : nat;
  tracer_inject : nat -> list (string * string);
}.

Definition IMetrics := nat.

Record IComponentContext := {
  ctx_tracer : Tracer;
  ctx_metrics : IMetrics;
}.

Inductive GrpcMetrics := RequestSent | RequestProcessed | RequestProcessingTime.

Definition GrpcMetrics_name (m : GrpcMetrics) : string :=
  match m with
  | RequestSent => "cookie_cutter.grpc_client.request_sent"
  | RequestProcessed => "cookie_cutter.grpc_client.request_processed"
  | RequestProcessingTime => "cookie_cutter.grpc_client.request_processing_time"
  end.

Inductive GrpcMetricResult := Success | Error_.

Definition GrpcMetricResult_name (r : GrpcMetricResult) : string :=
  match r with
  | Success => "success"
  | Error_ => "error"
  end.

(** Span tag keys: [Tags.*] of opentracing and [OpenTracingTagKeys.*]. *)
Inductive tag_key :=
| SAMPLING_PRIORITY | SPAN_KIND | COMPONENT | RpcCall | RpcHost | RpcFlavor.

Inductive tag_value := TagNum (n : Z) | TagStr (s : string).

(** [Tags.SPAN_KIND_RPC_CLIENT]. *)
Definition SPAN_KIND_RPC_CLIENT : tag_value := TagStr "client".

(** grpc's [CallOptions]; the source sets [credentials] and
    [propagate_flags] to [undefined]. *)
Record CallOptions := { deadline : option Z }.

(** grpc's [Metadata], as far as [set] fills it: one value per header
    name. *)
Definition Metadata := gmap string string.

(** [String.prototype.toLowerCase] on header names, which are ASCII. *)
Definition toLowerCase_ascii (a : ascii) : ascii :=
  let n := nat_of_ascii a in
  if (65 <=? n) && (n <=? 90) then ascii_of_nat (n + 32) else a.

Fixpoint toLowerCase (s : string) : string :=
  match s with
  | EmptyString => EmptyString
  | String a s' => String (toLowerCase_ascii a) (toLowerCase s')
  end.

(** [Metadata.set]: the name is lower-cased and its entry replaced.  The
    names and values a tracer injects are the ones grpc accepts. *)
Definition Metadata_set (name value : string) (md : Metadata) : Metadata :=
  <[toLowerCase name := value]> md.

(** What a caller sees of a call: the promise of a unary call settles once;
    every [next()] on a streaming call's sequence settles with a value, the
    end of the sequence, or an error. *)
Inductive settlement :=
| Fulfilled (value : jsval)
| RejectedWith (e : Error)
| IterValue (value : jsval)
| IterDone
| IterThrow (e : Error).

(** ** The effect log

    Calls are numbered in invocation order; call [c]'s span and stream are
    known by the same number. *)
Inductive effect :=
| MetricsIncrement (sink : IMetrics) (name : GrpcMetrics) (tags : list (string * string))
| MetricsTiming (sink : IMetrics) (name : GrpcMetrics) (value : Z) (tags : list (string * string))
| StartSpan (tracer : nat) (span : nat) (name : string) (childOf : SpanContext)
| SetTag (span : nat) (key : tag_key) (value : tag_value)
| FailSpan (span : nat) (e : Error)
| FinishSpan (span : nat)
| Inject (tracer : nat) (span : nat)
| WaitForReady (c : nat) (deadline : Z)
| MakeUnaryRequest (c : nat) (method : MethodDefinition) (request : jsval)
    (metadata : Metadata) (options : CallOptions)
| MakeServerStreamRequest (c : nat) (method : MethodDefinition) (request : jsval)
    (metadata : Metadata) (options : CallOptions)
| StreamCancel (stream : nat)
| ClientClose
| Settle (c : nat) (r : settlement).

(** ** The async bridge *)

(** Modelled from the spec: [AsyncPipe] of cookie-cutter-core is not among
    the sources.  Its state is "a pending-value queue (ordered), a terminal
    state ([open | closed | failed(error)])". *)
Inductive terminal := TOpen | TClosed | TFailed (e : Error).

Record AsyncPipe := { queue : list jsval; term : terminal }.

Definition new_AsyncPipe : AsyncPipe := {| queue := []; term := TOpen |}.

Definition pipe_closed_error : Error := mkError "pipe is closed" None.

(** Modelled from the spec: "once terminal, no further values are accepted";
    the attempt fails ("catching and ignoring the send failure"). *)
Definition pipe_send (v : jsval) (p : AsyncPipe) : Error + AsyncPipe :=
  match term p with
  | TOpen => inr {| queue := queue p ++ [v]; term := TOpen |}
  | _ => inl pipe_closed_error
  end.

(** Modelled from the spec: the producer "marks terminal exactly once". *)
Definition pipe_close (p : AsyncPipe) : AsyncPipe :=
  match term p with
  | TOpen => {| queue := queue p; term := TClosed |}
  | _ => p
  end.

(** Modelled from the spec: "propagating the first failure". *)
Definition pipe_throw (e : Error) (p : AsyncPipe) : AsyncPipe :=
  match term p with
  | TOpen => {| queue := queue p; term := TFailed e |}
  | _ => p
  end.

Inductive next_result :=
| NextValue (v : jsval)
| NextDone
| NextThrow (e : Error)
| NextPending.

(** Modelled from the spec: values come out in queue order; "consumption
    after termination replays the terminal outcome deterministically
    (end-of-sequence or the stored error) rather than blocking forever".  On
    an open, empty bridge the consumer stays suspended. *)
Definition pipe_next (p : AsyncPipe) : next_result * AsyncPipe :=
  match queue p with
  | v :: q => (NextValue v, {| queue := q; term := term p |})
  | [] =>
      match term p with
      | TOpen => (NextPending, p)
      | TClosed => (NextDone, p)
      | TFailed e => (NextThrow e, p)
      end
  end.

(** Modelled from the spec: a consumer that gives up terminates the bridge. *)
Definition pipe_return (p : AsyncPipe) : AsyncPipe := pipe_close p.

(** ** Calls in flight *)

(** The stream handlers of lines 146-175 close over these. *)
Record wiring := {
  w_pipe : AsyncPipe;
  w_span : nat;
  w_startTime : Z;
}.

(** Where the body of the async generator of lines 122-179 stands.  An
    async generator queues the requests made while its body is suspended in
    an [await]: a [return()] made behind outstanding [next()] requests waits
    for them, with [behind] counting the requests made after it. *)
Inductive gen_phase :=
| GenSuspendedStart (request : jsval) (spanContext : SpanContext)
| GenAwaitingReady (request : jsval) (span : nat) (startTime : Z)
| GenDelegating
| GenCompleted
| GenAwaitingReadyThenReturn (request : jsval) (span : nat) (startTime : Z) (behind : nat)
| GenDelegatingThenReturn (behind : nat).

Inductive call :=
| Threw (e : Error)
| UnaryAwaitingReady (key : string) (method : MethodDefinition) (request : jsval)
    (span : nat) (startTime : Z)
| UnaryInFlight (method : MethodDefinition) (span : nat) (startTime : Z)
| UnarySettled
| Streaming (key : string) (method : MethodDefinition) (phase : gen_phase)
    (demand : nat) (wired : option wiring).

(** ** The proxy's state *)

Record state := mkState {
  log : list effect;
  ready : gmap string bool;         (* [let ready] of line 94, one per key *)
  pendingStreams : list nat;        (* a JS [Set]: insertion-ordered *)
  tracer : Tracer;
  metrics : IMetrics;
  calls : list call;
  date_now : Z;                     (* [Date.now()], milliseconds *)
  perf_now : Z;                     (* [performance.now()], microseconds *)
}.

Definition set_log (f : list effect -> list effect) (s : state) : state :=
  mkState (f (log s)) (ready s) (pendingStreams s) (tracer s) (metrics s)
    (calls s) (date_now s) (perf_now s).
Definition set_ready (f : gmap string bool -> gmap string bool) (s : state) : state :=
  mkState (log s) (f (ready s)) (pendingStreams s) (tracer s) (metrics s)
    (calls s) (date_now s) (perf_now s).
Definition set_pendingStreams (f : list nat -> list nat) (s : state) : state :=
  mkState (log s) (ready s) (f (pendingStreams s)) (tracer s) (metrics s)
    (calls s) (date_now s) (perf_now s).
Definition set_context (t : Tracer) (m : IMetrics) (s : state) : state :=
  mkState (log s) (ready s) (pendingStreams s) t m
    (calls s) (date_now s) (perf_now s).
Definition set_calls (f : list call -> list call) (s : state) : state :=
  mkState (log s) (ready s) (pendingStreams s) (tracer s) (metrics s)
    (f (calls s)) (date_now s) (perf_now s).
Definition set_clock (d p : Z) (s : state) : state :=
  mkState (log s) (ready s) (pendingStreams s) (tracer s) (metrics s)
    (calls s) d p.

(** ** The state monad *)

Definition M (A : Type) : Type := state -> A * state.

Global Instance M_ret : MRet M := fun A a s => (a, s).
Global Instance M_bind : MBind M := fun A B f m s => let '(a, s') := m s in f a s'.

Definition gets {A} (f : state -> A) : M A := fun s => (f s, s).
Definition modify (f : state -> state) : M () := fun s => ((), f s).
Definition emit (e : effect) : M () := modify (set_log (fun l => l ++ [e])).
Definition exec {A} (m : M A) (s : state) : state := (m s).2.

Fixpoint for_each {A} (l : list A) (f : A -> M ()) : M () :=
  match l with
  | [] => mret ()
  | x :: l' => f x ;; for_each l' f
  end.

(** ** [ClientBase] (lines 42-71) *)

(** [pendingStreams.add(stream)] and [pendingStreams.delete(stream)]. *)
Definition Set_add (x : nat) (l : list nat) : list nat :=
  if decide (x ∈ l) then l else l ++ [x].
Definition Set_delete (x : nat) (l : list nat) : list nat :=
  filter (fun y => y ≠ x) l.

(** [initialize] (lines 53-56). *)
Definition initialize (context : IComponentContext) : M () :=
  modify (set_context (ctx_tracer context) (ctx_metrics context)).

(** [dispose] (lines 58-63): [cancel()] asks the transport to cancel the
    stream; whatever the transport then emits on that stream arrives as
    later events. *)
Definition dispose : M () :=
  items ← gets pendingStreams;
  for_each items (fun item => emit (StreamCancel item)) ;;
  emit ClientClose.

(** [addStream] (lines 65-70); the ["close"] handler it registers is
    [on_close]. *)
Definition addStream (stream : nat) : M () :=
  modify (set_pendingStreams (Set_add stream)).

Definition on_close (stream : nat) : M () :=
  modify (set_pendingStreams (Set_delete stream)).

(** ** Instrumentation helpers (lines 230-270) *)

(** Modelled from the spec: [failSpan] of cookie-cutter-core is not among
    the sources; it is what the spec calls "mark the span failed". *)
Definition failSpan (span : nat) (e : Error) : M () := emit (FailSpan span e).

Definition createCallSpan (tr : Tracer) (host : string) (method : MethodDefinition)
    (spanContext : SpanContext) (c : nat) : M nat :=
  emit (StartSpan (tracer_id tr) c "Grpc Client Call" spanContext) ;;
  emit (SetTag c SAMPLING_PRIORITY (TagNum 1)) ;;
  emit (SetTag c SPAN_KIND SPAN_KIND_RPC_CLIENT) ;;
  emit (SetTag c COMPONENT (TagStr "cookie-cutter-grpc")) ;;
  emit (SetTag c RpcCall (TagStr (path method))) ;;
  emit (SetTag c RpcHost (TagStr host)) ;;
  emit (SetTag c RpcFlavor (TagStr "grpc")) ;;
  mret c.

(** Lines 251-253: the carrier's entries, copied into a fresh [Metadata]. *)
Definition Metadata_of (carrier : list (string * string)) : Metadata :=
  foldl (fun md kv => Metadata_set kv.1 kv.2 md) ∅ carrier.

Definition createTracingMetadata (tr : Tracer) (span : nat) : M Metadata :=
  emit (Inject (tracer_id tr) span) ;;
  mret (Metadata_of (tracer_inject tr span)).

(** [Math.round] of a duration in milliseconds, the duration being known to
    the microsecond: halves round towards plus infinity. *)
Definition Math_round (us : Z) : Z := ((us + 500) / 1000)%Z.

Definition emitTimerMetric (startTime : Z) (path endpoint : string) (sink : IMetrics) : M () :=
  currentPerformanceTime ← gets perf_now;
  let runTime := Math_round (currentPerformanceTime - startTime) in
  emit (MetricsTiming sink RequestProcessingTime runTime
          [("path", path); ("endpoint", endpoint)]).

(** ** [createGrpcClient] (lines 73-228) *)

(** [new ClientBase(client)]: no call yet, no stream pending, every [ready]
    still [false] (a key without entry reads as [false]). *)
Definition new_ClientBase (dflt : IComponentContext) (date perf : Z) : state :=
  mkState [] ∅ [] (ctx_tracer dflt) (ctx_metrics dflt) [] date perf.

Definition is_ready (key : string) (s : state) : bool :=
  default false (ready s !! key).

(** The three callables the loop of lines 85-225 installs. *)
Inductive callable :=
| ClientStreamStub
| ServerStreamExecutor (key : string) (method : MethodDefinition)
| UnaryExecutor (key : string) (method : MethodDefinition).

Definition install (key : string) (method : MethodDefinition) : callable :=
  if requestStream method then ClientStreamStub
  else if responseStream method then ServerStreamExecutor key method
  else UnaryExecutor key method.

(** Settle as many outstanding [next()] requests as the bridge allows
    ([yield* pipe], line 178).  Once the bridge reports its end or its error
    the generator is finished, and what is still outstanding completes with
    [done]. *)
Fixpoint drain (demand : nat) (p : AsyncPipe) : list settlement * nat * AsyncPipe * bool :=
  match demand with
  | O => ([], O, p, false)
  | S d =>
      match pipe_next p with
      | (NextValue v, p') =>
          let '(rs, d', p'', fin) := drain d p' in (IterValue v :: rs, d', p'', fin)
      | (NextDone, p') => (IterDone :: repeat IterDone d, O, p', true)
      | (NextThrow e, p') => (IterThrow e :: repeat IterDone d, O, p', true)
      | (NextPending, p') => ([], S d, p', false)
      end
  end.

Section Client.

Variable config : Config.

(** The callables the loop of lines 85-225 assigns on the wrapper, by key.
    The wrapper is a [ClientBase]: its own members are reached through the
    events [Initialize] and [Dispose], not through this map. *)
Definition wrapper : gmap string callable :=
  map_imap (fun key method => Some (install key method)) (serviceDef config).

(** [whenReady] (lines 95-107): the call to [client.waitForReady] ... *)
Definition whenReady (c : nat) : M () :=
  now_ms ← gets date_now;
  emit (WaitForReady c (now_ms + connectionTimeout config)%Z).

(** ... and the callback handed to it; the result is what the promise
    rejects with, if it does. *)
Definition whenReady_callback (key : string) (span : nat) (err : option Error)
    : M (option Error) :=
  match err with
  | Some e =>
      failSpan span e ;;
      emit (FinishSpan span) ;;
      mret (Some e)
  | None =>
      modify (set_ready <[key := true]>) ;;
      mret None
  end.

(** [callOptions] (lines 109-119). *)
Definition callOptions (method : MethodDefinition) : M CallOptions :=
  now_ms ← gets date_now;
  mret {| deadline := if responseStream method
                      then None (* streams may run infinitely *)
                      else Some (now_ms + requestTimeout config)%Z |}.

(** *** The unary executor (lines 181-223) *)

(** Lines 192-199: the request goes out. *)
Definition unary_request (method : MethodDefinition) (c : nat) (request : jsval)
    (span : nat) (startTime : Z) : M call :=
  tr ← gets tracer;
  metadata ← createTracingMetadata tr span;
  options ← callOptions method;
  emit (MakeUnaryRequest c method request metadata options) ;;
  mret (UnaryInFlight method span startTime).

(** Lines 182-190, up to the first suspension. *)
Definition unary_call (key : string) (method : MethodDefinition) (c : nat)
    (request : jsval) (spanContext : SpanContext) : M call :=
  startTime ← gets perf_now;
  sink ← gets metrics;
  emit (MetricsIncrement sink RequestSent
          [("path", path method); ("endpoint", endpoint config)]) ;;
  tr ← gets tracer;
  span ← createCallSpan tr (endpoint config) method spanContext c;
  rdy ← gets (is_ready key);
  if (rdy : bool) then unary_request method c request span startTime
  else
    whenReady c ;;
    mret (UnaryAwaitingReady key method request span startTime).

(** The call resumes after [await whenReady(span)] (line 189). *)
Definition unary_ready (key : string) (method : MethodDefinition) (c : nat)
    (request : jsval) (span : nat) (startTime : Z) (err : option Error) : M call :=
  r ← whenReady_callback key span err;
  match r with
  | Some e => emit (Settle c (RejectedWith e)) ;; mret UnarySettled
  | None => unary_request method c request span startTime
  end.

(** The callback of lines 200-220. *)
Definition unary_callback (method : MethodDefinition) (c : nat) (span : nat)
    (startTime : Z) (error : option Error) (value : jsval) : M call :=
  sink ← gets metrics;
  emit (MetricsIncrement sink RequestProcessed
          [("path", path method); ("endpoint", endpoint config);
           ("result", GrpcMetricResult_name
                        match error with Some _ => Error_ | None => Success end)]) ;;
  sink' ← gets metrics;
  emitTimerMetric startTime (path method) (endpoint config) sink' ;;
  match error with
  | Some e =>
      failSpan span e ;;
      emit (FinishSpan span) ;;
      emit (Settle c (RejectedWith e))
  | None =>
      emit (FinishSpan span) ;;
      emit (Settle c (Fulfilled value))
  end ;;
  mret UnarySettled.

(** *** The streaming executor (lines 122-179) *)

(** [yield* pipe] (line 178) with [demand] requests outstanding. *)
Definition delegate (key : string) (method : MethodDefinition) (c : nat)
    (demand : nat) (w : wiring) : M call :=
  let '(rs, demand', pipe', fin) := drain demand (w_pipe w) in
  for_each rs (fun r => emit (Settle c r)) ;;
  mret (Streaming key method (if fin then GenCompleted else GenDelegating) demand'
          (Some {| w_pipe := pipe'; w_span := w_span w; w_startTime := w_startTime w |})).

(** [yield* pipe] with a [return()] queued behind the [demand] outstanding
    requests.  When these are settled and the generator is not over, the
    [return()] is passed on to the bridge and ends the generator; once the
    generator is over, the [return()] and the requests behind it complete
    with [done]. *)
Definition delegate_return (key : string) (method : MethodDefinition) (c : nat)
    (demand behind : nat) (w : wiring) : M call :=
  let '(rs, demand', pipe', fin) := drain demand (w_pipe w) in
  for_each rs (fun r => emit (Settle c r)) ;;
  match demand' with
  | S _ =>
      mret (Streaming key method (GenDelegatingThenReturn behind) demand'
              (Some {| w_pipe := pipe'; w_span := w_span w; w_startTime := w_startTime w |}))
  | O =>
      for_each (repeat IterDone (S behind)) (fun r => emit (Settle c r)) ;;
      mret (Streaming key method GenCompleted 0
              (Some {| w_pipe := if (fin : bool) then pipe' else pipe_return pipe';
                       w_span := w_span w; w_startTime := w_startTime w |}))
  end.

(** After a handler touched the bridge: a consumer suspended in [yield*] is
    served; a generator that is over is not. *)
Definition resume (key : string) (method : MethodDefinition) (c : nat)
    (phase : gen_phase) (demand : nat) (w : wiring) : M call :=
  match phase with
  | GenDelegating => delegate key method c demand w
  | GenDelegatingThenReturn behind => delegate_return key method c demand behind w
  | _ => mret (Streaming key method phase demand (Some w))
  end.

(** Lines 136-178: the stream is opened, wired to a fresh bridge and
    registered. *)
Definition stream_open (key : string) (method : MethodDefinition) (c : nat)
    (request : jsval) (span : nat) (startTime : Z) (demand : nat) : M call :=
  tr ← gets tracer;
  metadata ← createTracingMetadata tr span;
  options ← callOptions method;
  emit (MakeServerStreamRequest c method request metadata options) ;;
  let pipe := new_AsyncPipe in
  addStream c ;;
  delegate key method c demand
    {| w_pipe := pipe; w_span := span; w_startTime := startTime |}.

(** Lines 126-134: the body starts at the first [next()]. *)
Definition stream_start (key : string) (method : MethodDefinition) (c : nat)
    (request : jsval) (spanContext : SpanContext) : M call :=
  startTime ← gets perf_now;
  sink ← gets metrics;
  emit (MetricsIncrement sink RequestSent
          [("path", path method); ("endpoint", endpoint config)]) ;;
  tr ← gets tracer;
  span ← createCallSpan tr (endpoint config) method spanContext c;
  rdy ← gets (is_ready key);
  if (rdy : bool) then stream_open key method c request span startTime 1
  else
    whenReady c ;;
    mret (Streaming key method (GenAwaitingReady request span startTime) 1 None).

(** The body resumes after [await whenReady(span)] (line 133).  On failure
    the body throws: the [next()] that started it rejects, the generator is
    over. *)
Definition stream_ready (key : string) (method : MethodDefinition) (c : nat)
    (request : jsval) (span : nat) (startTime : Z) (demand : nat)
    (err : option Error) : M call :=
  r ← whenReady_callback key span err;
  match r with
  | Some e =>
      for_each (IterThrow e :: repeat IterDone (pred demand))
        (fun r => emit (Settle c r)) ;;
      mret (Streaming key method GenCompleted 0 None)
  | None => stream_open key method c request span startTime demand
  end.

(** The same with a [return()] queued behind the outstanding requests. *)
Definition stream_open_return (key : string) (method : MethodDefinition) (c : nat)
    (request : jsval) (span : nat) (startTime : Z) (demand behind : nat) : M call :=
  tr ← gets tracer;
  metadata ← createTracingMetadata tr span;
  options ← callOptions method;
  emit (MakeServerStreamRequest c method request metadata options) ;;
  let pipe := new_AsyncPipe in
  addStream c ;;
  delegate_return key method c demand behind
    {| w_pipe := pipe; w_span := span; w_startTime := startTime |}.

Definition stream_ready_return (key : string) (method : MethodDefinition) (c : nat)
    (request : jsval) (span : nat) (startTime : Z) (demand behind : nat)
    (err : option Error) : M call :=
  r ← whenReady_callback key span err;
  match r with
  | Some e =>
      for_each (IterThrow e :: repeat IterDone (pred demand + S behind))
        (fun r => emit (Settle c r)) ;;
      mret (Streaming key method GenCompleted 0 None)
  | None => stream_open_return key method c request span startTime demand behind
  end.

(** The handler of ["data"] (lines 169-175). *)
Definition on_data (key : string) (method : MethodDefinition) (c : nat)
    (phase : gen_phase) (demand : nat) (w : wiring) (chunk : jsval) : M call :=
  match pipe_send chunk (w_pipe w) with
  | inr pipe' =>
      resume key method c phase demand
        {| w_pipe := pipe'; w_span := w_span w; w_startTime := w_startTime w |}
  | inl _ =>
      (* nothing to do, pipe was closed *)
      mret (Streaming key method phase demand (Some w))
  end.

(** The handler of ["end"] (lines 146-155).  [pipe.close()] makes the bridge
    terminal at once; the handler goes on as soon as the [await] lets it,
    which is before the end of the sequence has travelled through [yield*]
    to a suspended consumer. *)
Definition on_end (key : string) (method : MethodDefinition) (c : nat)
    (phase : gen_phase) (demand : nat) (w : wiring) : M call :=
  let pipe' := pipe_close (w_pipe w) in
  sink ← gets metrics;
  emit (MetricsIncrement sink RequestProcessed
          [("path", path method); ("result", GrpcMetricResult_name Success);
           ("endpoint", endpoint config)]) ;;
  sink' ← gets metrics;
  emitTimerMetric (w_startTime w) (path method) (endpoint config) sink' ;;
  emit (FinishSpan (w_span w)) ;;
  resume key method c phase demand
    {| w_pipe := pipe'; w_span := w_span w; w_startTime := w_startTime w |}.

(** The handler of ["error"] (lines 157-167). *)
Definition on_error (key : string) (method : MethodDefinition) (c : nat)
    (phase : gen_phase) (demand : nat) (w : wiring) (error : Error) : M call :=
  sink ← gets metrics;
  emit (MetricsIncrement sink RequestProcessed
          [("path", path method); ("result", GrpcMetricResult_name Error_);
           ("endpoint", endpoint config)]) ;;
  sink' ← gets metrics;
  emitTimerMetric (w_startTime w) (path method) (endpoint config) sink' ;;
  failSpan (w_span w) error ;;
  emit (FinishSpan (w_span w)) ;;
  resume key method c phase demand
    {| w_pipe := pipe_throw error (w_pipe w); w_span := w_span w;
       w_startTime := w_startTime w |}.

(** [next()] on the sequence a streaming call returned. *)
Definition gen_next (key : string) (method : MethodDefinition) (c : nat)
    (phase : gen_phase) (demand : nat) (wired : option wiring) : M call :=
  match phase, wired with
  | GenSuspendedStart request spanContext, _ =>
      stream_start key method c request spanContext
  | GenAwaitingReady _ _ _, _ =>
      mret (Streaming key method phase (S demand) wired)
  | GenDelegating, Some w => delegate key method c (S demand) w
  | GenDelegating, None => mret (Streaming key method phase (S demand) wired)
  | GenCompleted, _ =>
      emit (Settle c IterDone) ;;
      mret (Streaming key method phase demand wired)
  | GenAwaitingReadyThenReturn request span startTime behind, _ =>
      mret (Streaming key method
              (GenAwaitingReadyThenReturn request span startTime (S behind)) demand wired)
  | GenDelegatingThenReturn behind, _ =>
      mret (Streaming key method (GenDelegatingThenReturn (S behind)) demand wired)
  end.

(** [return()] on that sequence: the consumer gives up.  With nothing
    outstanding the generator ends at once; behind outstanding [next()]
    requests the [return()] is queued. *)
Definition gen_return (key : string) (method : MethodDefinition) (c : nat)
    (phase : gen_phase) (demand : nat) (wired : option wiring) : M call :=
  match demand, phase, wired with
  | O, GenSuspendedStart _ _, _ | O, GenCompleted, _ =>
      emit (Settle c IterDone) ;;
      mret (Streaming key method GenCompleted 0 wired)
  | O, GenDelegating, Some w =>
      emit (Settle c IterDone) ;;
      mret (Streaming key method GenCompleted 0
              (Some {| w_pipe := pipe_return (w_pipe w); w_span := w_span w;
                       w_startTime := w_startTime w |}))
  | S _, GenAwaitingReady request span startTime, _ =>
      mret (Streaming key method
              (GenAwaitingReadyThenReturn request span startTime 0) demand wired)
  | S _, GenDelegating, Some w =>
      mret (Streaming key method (GenDelegatingThenReturn 0) demand wired)
  | _, GenAwaitingReadyThenReturn request span startTime behind, _ =>
      mret (Streaming key method
              (GenAwaitingReadyThenReturn request span startTime (S behind)) demand wired)
  | _, GenDelegatingThenReturn behind, _ =>
      mret (Streaming key method (GenDelegatingThenReturn (S behind)) demand wired)
  | _, _, _ => mret (Streaming key method phase demand wired)
  end.

(** ** The event loop *)

Inductive stream_event :=
| Data (chunk : jsval)
| End
| Error_event (error : Error)
| Close.

Inductive event :=
| Invoke (key : string) (request : jsval) (spanContext : SpanContext)
| Next (c : nat)
| Return (c : nat)
| ReadyCallback (c : nat) (err : option Error)
| UnaryCallback (c : nat) (error : option Error) (value : jsval)
| StreamEvent (c : nat) (ev : stream_event)
| Initialize (context : IComponentContext)
| Dispose
| Tick (ms us : Z).

(** Calling [wrapper[key](request, spanContext)]. *)
Definition invoke (f : callable) (c : nat) (request : jsval) (spanContext : SpanContext)
    : M call :=
  match f with
  | ClientStreamStub => mret (Threw client_streams_unsupported)
  | ServerStreamExecutor key method =>
      mret (Streaming key method (GenSuspendedStart request spanContext) 0 None)
  | UnaryExecutor key method => unary_call key method c request spanContext
  end.

Definition set_call (c : nat) (cl : call) : M () :=
  modify (set_calls <[c := cl]>).

(** One turn of the event loop.  The transport calls a callback only where
    the proxy handed it one, and only once; stream handlers stay registered
    for as long as the stream exists.  A key that names no method of the
    service names none of the callables of the loop. *)
Definition step (ev : event) : M () :=
  match ev with
  | Invoke key request spanContext =>
      match wrapper !! key with
      | Some f =>
          c ← gets (fun s => length (calls s));
          cl ← invoke f c request spanContext;
          modify (set_calls (fun l => l ++ [cl]))
      | None => mret ()
      end
  | Next c =>
      cur ← gets (fun s => calls s !! c);
      match cur with
      | Some (Streaming key method phase demand wired) =>
          cl ← gen_next key method c phase demand wired; set_call c cl
      | _ => mret ()
      end
  | Return c =>
      cur ← gets (fun s => calls s !! c);
      match cur with
      | Some (Streaming key method phase demand wired) =>
          cl ← gen_return key method c phase demand wired; set_call c cl
      | _ => mret ()
      end
  | ReadyCallback c err =>
      cur ← gets (fun s => calls s !! c);
      match cur with
      | Some (UnaryAwaitingReady key method request span startTime) =>
          cl ← unary_ready key method c request span startTime err; set_call c cl
      | Some (Streaming key method (GenAwaitingReady request span startTime) demand _) =>
          cl ← stream_ready key method c request span startTime demand err;
          set_call c cl
      | Some (Streaming key method
                (GenAwaitingReadyThenReturn request span startTime behind) demand _) =>
          cl ← stream_ready_return key method c request span startTime demand behind err;
          set_call c cl
      | _ => mret ()
      end
  | UnaryCallback c error value =>
      cur ← gets (fun s => calls s !! c);
      match cur with
      | Some (UnaryInFlight method span startTime) =>
          cl ← unary_callback method c span startTime error value; set_call c cl
      | _ => mret ()
      end
  | StreamEvent c sev =>
      cur ← gets (fun s => calls s !! c);
      match cur with
      | Some (Streaming key method phase demand (Some w)) =>
          match sev with
          | Data chunk => cl ← on_data key method c phase demand w chunk; set_call c cl
          | End => cl ← on_end key method c phase demand w; set_call c cl
          | Error_event error =>
              cl ← on_error key method c phase demand w error; set_call c cl
          | Close => on_close c
          end
      | _ => mret ()
      end
  | Initialize context => initialize context
  | Dispose => dispose
  | Tick ms us =>
      modify (fun s => set_clock (date_now s + ms) (perf_now s + us) s)
  end.

Definition run (evs : list event) (s : state) : state :=
  foldl (fun s ev => exec (step ev) s) s evs.

End Client.

(** ** Reading the effect log *)

Global Instance GrpcMetrics_eq_dec : EqDecision GrpcMetrics.
Proof. solve_decision. Defined.

(** The calls for which [client.waitForReady] was invoked. *)
Definition waits (l : list effect) : list nat :=
  omap (fun e => match e with WaitForReady c _ => Some c | _ => None end) l.

(** What the caller of call [c] was handed, oldest first. *)
Definition settlements (c : nat) (l : list effect) : list settlement :=
  omap (fun e => match e with
                 | Settle c' r => if decide (c' = c) then Some r else None
                 | _ => None
                 end) l.

(** The tags of every increment of the counter [name]. *)
Definition increments (name : GrpcMetrics) (l : list effect) : list (list (string * string)) :=
  omap (fun e => match e with
                 | MetricsIncrement _ n tags => if decide (n = name) then Some tags else None
                 | _ => None
                 end) l.

(** The samples of the timer. *)
Definition timings (l : list effect) : list Z :=
  omap (fun e => match e with
                 | MetricsTiming _ RequestProcessingTime v _ => Some v
                 | _ => None
                 end) l.

Definition spans_started (l : list effect) : list nat :=
  omap (fun e => match e with StartSpan _ sp _ _ => Some sp | _ => None end) l.

Definition spans_finished (l : list effect) : list nat :=
  omap (fun e => match e with FinishSpan sp => Some sp | _ => None end) l.

Definition spans_failed (l : list effect) : list (nat * Error) :=
  omap (fun e => match e with FailSpan sp e => Some (sp, e) | _ => None end) l.

(** The [result] tag of every [request_processed] increment. *)
Fixpoint tag_of (name : string) (tags : list (string * string)) : option string :=
  match tags with
  | [] => None
  | (k, v) :: tags' => if decide (k = name) then Some v else tag_of name tags'
  end.

Definition processed_results (l : list effect) : list (option string) :=
  tag_of "result" <$> increments RequestProcessed l.

(** The deadlines of the requests handed to the transport. *)
Definition unary_deadlines (l : list effect) : list (option Z) :=
  omap (fun e => match e with
                 | MakeUnaryRequest _ _ _ _ o => Some (deadline o)
                 | _ => None
                 end) l.

Definition stream_deadlines (l : list effect) : list (option Z) :=
  omap (fun e => match e with
                 | MakeServerStreamRequest _ _ _ _ o => Some (deadline o)
                 | _ => None
                 end) l.

(** The effects of [s'] that [s] did not have yet. *)
Definition since (s s' : state) : list effect := drop (length (log s)) (log s').

(** ** Traces of a single call *)

(** The events of one unary call on [key], issued in state [s] as call [c]:
    the invocation, the readiness callback if the call had to wait, the
    transport's answer; time passes in between. *)
Definition unary_exchange (s : state) (key : string) (request : jsval)
    (spanContext : SpanContext) (c : nat) (t1 t2 : Z * Z)
    (error : option Error) (value : jsval) : list event :=
  [Invoke key request spanContext; Tick t1.1 t1.2]
  ++ (if is_ready key s then [] else [ReadyCallback c None])
  ++ [Tick t2.1 t2.2; UnaryCallback c error value].

(** The events that open one streaming call on [key]: the invocation, the
    first [next()] of the consumer, and the readiness callback if the call
    had to wait. *)
Definition stream_opening (s : state) (key : string) (request : jsval)
    (spanContext : SpanContext) (c : nat) (t1 t2 : Z * Z) : list event :=
  [Invoke key request spanContext; Tick t1.1 t1.2; Next c; Tick t2.1 t2.2]
  ++ (if is_ready key s then [] else [ReadyCallback c None]).

(** The events of a call on [key] whose readiness wait fails with [e]. *)
Definition unary_unready (key : string) (request : jsval)
    (spanContext : SpanContext) (c : nat) (t1 : Z * Z) (e : Error) : list event :=
  [Invoke key request spanContext; Tick t1.1 t1.2; ReadyCallback c (Some e)].

Definition stream_unready (key : string) (request : jsval)
    (spanContext : SpanContext) (c : nat) (t1 t2 : Z * Z) (e : Error) : list event :=
  [Invoke key request spanContext; Tick t1.1 t1.2; Next c; Tick t2.1 t2.2;
   ReadyCallback c (Some e)].

(** The two events by which the transport is done with a stream. *)
Definition terminal_event (ev : stream_event) : Prop :=
  match ev with
  | End | Error_event _ => True
  | _ => False
  end.

Definition outcome_of_event (ev : stream_event) : option settlement :=
  match ev with
  | End => Some IterDone
  | Error_event e => Some (IterThrow e)
  | _ => None
  end.

(** While a stream is open: the transport delivers chunks, the consumer asks
    for values, time passes. *)
Definition flowing (c : nat) (ev : event) : Prop :=
  match ev with
  | Next c' => c' = c
  | StreamEvent c' (Data _) => c' = c
  | Tick _ _ => True
  | _ => False
  end.

(** Once the transport is done with the stream: the consumer asks for
    values, time passes. *)
Definition consuming (c : nat) (ev : event) : Prop :=
  match ev with
  | Next c' => c' = c
  | Tick _ _ => True
  | _ => False
  end.

(** The chunks of the ["data"] events, in order of delivery. *)
Definition chunks_of (evs : list event) : list jsval :=
  omap (fun ev => match ev with StreamEvent _ (Data chunk) => Some chunk | _ => None end) evs.

(** The number of [next()] requests. *)
Definition nexts (evs : list event) : nat :=
  length (omap (fun ev => match ev with Next c => Some c | _ => None end) evs).

(** What the transport has signalled on a bridge in state [t]. *)
Definition outcome_of (t : terminal) : option settlement :=
  match t with
  | TOpen => None
  | TClosed => Some IterDone
  | TFailed e => Some (IterThrow e)
  end.

(** What a consumer that asks [n] times is handed, given the chunks the
    transport delivered and the outcome it signalled, if it did: the chunks
    in order, then the outcome, then the end of the sequence for good. *)
Fixpoint handed (chunks : list jsval) (outcome : option settlement) (n : nat)
    : list settlement :=
  match n with
  | O => []
  | S n' =>
      match chunks with
      | v :: chunks' => IterValue v :: handed chunks' outcome n'
      | [] =>
          match outcome with
          | Some r => r :: repeat IterDone n'
          | None => []
          end
      end
  end.

(** The record of a streaming call whose bridge was given [chunks] and is in
    state [t], after [n] requests of the consumer. *)
Definition stream_record (key : string) (method : MethodDefinition) (span : nat)
    (startTime : Z) (n : nat) (chunks : list jsval) (t : terminal) : call :=
  Streaming key method
    (match t with
     | TOpen => GenDelegating
     | _ => if decide (n ≤ length chunks) then GenDelegating else GenCompleted
     end)
    (match t with TOpen => n - length chunks | _ => 0 end)
    (Some {| w_pipe := {| queue := drop n chunks; term := t |};
             w_span := span; w_startTime := startTime |}).

(** The instrumentation of one call, [c], as the claims count it. *)
Definition instrumented (c : nat) (d : list effect) : Prop :=
  spans_started d = [c] /\
  spans_finished d = [c] /\
  length (increments RequestSent d) = 1 /\
  length (increments RequestProcessed d) = 1 /\
  length (timings d) = 1.

(** The instrumentation of a call, [c], whose readiness wait failed with
    [e]. *)
Definition instrumented_unready (c : nat) (e : Error) (d : list effect) : Prop :=
  spans_started d = [c] /\
  spans_failed d = [(c, e)] /\
  spans_finished d = [c] /\
  length (increments RequestSent d) = 1 /\
  increments RequestProcessed d = [] /\
  timings d = [].

(** No instrumentation at all: no span, no counter, no timing sample. *)
Definition uninstrumented (d : list effect) : Prop :=
  spans_started d = [] /\
  spans_failed d = [] /\
  spans_finished d = [] /\
  increments RequestSent d = [] /\
  increments RequestProcessed d = [] /\
  timings d = [].

(** What may happen around a streaming call, [c], whose sequence is never
    asked for a value: the consumer drops the sequence, the transport calls
    back on [c], the proxy is initialised or disposed, time passes.  Nobody
    calls [next()], and no other call is made. *)
Definition unconsumed (c : nat) (ev : event) : Prop :=
  match ev with
  | Return c' | ReadyCallback c' _ | UnaryCallback c' _ _ | StreamEvent c' _ => c' = c
  | Initialize _ | Dispose | Tick _ _ => True
  | Invoke _ _ _ | Next _ => False
  end.

(** A sequence whose body is not running: it was not started yet, or it is
    over without a stream. *)
Definition body_at_rest (cl : call) : Prop :=
  match cl with
  | Streaming _ _ (GenSuspendedStart _ _) 0 None
  | Streaming _ _ GenCompleted 0 None => True
  | _ => False
  end.

(** Call [cl] is suspended in [await whenReady(span)] of the callable
    installed for [key]. *)
Definition awaiting_ready (key : string) (cl : call) : Prop :=
  match cl with
  | UnaryAwaitingReady k _ _ _ _ => k = key
  | Streaming k _ (GenAwaitingReady _ _ _) _ _
  | Streaming k _ (GenAwaitingReadyThenReturn _ _ _ _) _ _ => k = key
  | _ => False
  end.

(** A call record was made by the executor that [install] chose for its
    method. *)
Definition call_ok (cl : call) : Prop :=
  match cl with
  | UnaryAwaitingReady _ m _ _ _ | UnaryInFlight m _ _ => responseStream m = false
  | Streaming _ m _ _ _ => responseStream m = true
  | _ => True
  end.

(** The states the proxy can be in. *)
Definition reachable (config : Config) (s : state) : Prop :=
  exists dflt date perf evs, s = run config evs (new_ClientBase dflt date perf).

(** ** A small service, for concrete runs *)

Module Demo.

Definition codec_out (v : jsval) : list Byte.byte := [].
Definition codec_in (b : list Byte.byte) : jsval := VUndefined.

Definition Echo : MethodDefinition :=
  {| path := "/demo.Service/Echo"; requestStream := false; responseStream := false;
     requestSerialize := codec_out; responseDeserialize := codec_in |}.

Definition Ping : MethodDefinition :=
  {| path := "/demo.Service/Ping"; requestStream := false; responseStream := false;
     requestSerialize := codec_out; responseDeserialize := codec_in |}.

Definition Feed : MethodDefinition :=
  {| path := "/demo.Service/Feed"; requestStream := false; responseStream := true;
     requestSerialize := codec_out; responseDeserialize := codec_in |}.

Definition Upload : MethodDefinition :=
  {| path := "/demo.Service/Upload"; requestStream := true; responseStream := false;
     requestSerialize := codec_out; responseDeserialize := codec_in |}.

Definition config : Config :=
  {| endpoint := "localhost:50051";
     connectionTimeout := 1000;
     requestTimeout := 2000;
     serviceDef :=
       <["Echo" := Echo]> (<["Ping" := Ping]> (<["Feed" := Feed]> (<["Upload" := Upload]> ∅))) |}.

Definition context : IComponentContext :=
  {| ctx_tracer := {| tracer_id := 0; tracer_inject := fun _ => [("x-trace-id", "t0")] |};
     ctx_metrics := 0 |}.

(** A fresh proxy. *)
Definition fresh : state := new_ClientBase context 100 5000.

Definition unavailable : Error := mkError "Failed to connect before the deadline" (Some 14%Z).

(** [Echo] was invoked and waits for the connection. *)
Definition echo_waiting : state :=
  run config [Invoke "Echo" (VStr "hi") "ctx"] fresh.

(** [Echo] observed the connection become ready. *)
Definition echo_ready : state :=
  run config [Tick 5 5000; ReadyCallback 0 None] echo_waiting.

(** A call on [Echo] whose readiness wait failed. *)
Definition echo_unready : state :=
  run config (unary_unready "Echo" (VStr "hi") "ctx" 0 (10, 10000)%Z unavailable) fresh.

(** A call on [Feed] was invoked; its sequence was never asked for a value. *)
Definition feed_untouched : state :=
  run config [Invoke "Feed" (VStr "hi") "ctx"; Tick 50 50000] fresh.

(** A stream on [Feed] is open and registered. *)
Definition feed_open : state :=
  run config (stream_opening fresh "Feed" (VStr "hi") "ctx" 0 (1, 1000)%Z (2, 2000)%Z) fresh.

(** The consumer took one chunk of the stream and gave up. *)
Definition feed_abandoned : state :=
  run config [StreamEvent 0 (Data (VNum 1)); Return 0] feed_open.

(** Chunks arrive faster, then slower, than the consumer asks for them. *)
Definition feed_flow : list event :=
  [StreamEvent 0 (Data (VNum 1)); StreamEvent 0 (Data (VNum 2)); Next 0; Tick 1 1000;
   Next 0; Next 0; StreamEvent 0 (Data (VNum 3))].

End Demo.

(** ** More views of the log, of events and of calls *)

(** The deadlines handed to [client.waitForReady]. *)
Definition wait_deadlines (l : list effect) : list Z :=
  omap (fun e => match e with WaitForReady _ d => Some d | _ => None end) l.

(** The sink of every metric emitted. *)
Definition metric_sinks (l : list effect) : list IMetrics :=
  omap (fun e => match e with
                 | MetricsIncrement sink _ _ | MetricsTiming sink _ _ _ => Some sink
                 | _ => None
                 end) l.

(** The tracer of every [startSpan] and every [inject]. *)
Definition tracers_used (l : list effect) : list nat :=
  omap (fun e => match e with
                 | StartSpan t _ _ _ | Inject t _ => Some t
                 | _ => None
                 end) l.

(** The streams that were sent [cancel()]. *)
Definition cancels (l : list effect) : list nat :=
  omap (fun e => match e with StreamCancel x => Some x | _ => None end) l.

(** The unary requests handed to the transport: call, method descriptor,
    request value, metadata. *)
Definition unary_requests (l : list effect)
    : list (nat * MethodDefinition * jsval * Metadata) :=
  omap (fun e => match e with
                 | MakeUnaryRequest c m rq md _ => Some (c, m, rq, md)
                 | _ => None
                 end) l.

Definition stream_requests (l : list effect)
    : list (nat * MethodDefinition * jsval * Metadata) :=
  omap (fun e => match e with
                 | MakeServerStreamRequest c m rq md _ => Some (c, m, rq, md)
                 | _ => None
                 end) l.

(** Every [startSpan]: tracer, span, operation name, parent. *)
Definition span_starts (l : list effect) : list (nat * nat * string * SpanContext) :=
  omap (fun e => match e with
                 | StartSpan t sp name parent => Some (t, sp, name, parent)
                 | _ => None
                 end) l.

(** Every [setTag]: span, key, value. *)
Definition span_tags (l : list effect) : list (nat * tag_key * tag_value) :=
  omap (fun e => match e with SetTag sp k v => Some (sp, k, v) | _ => None end) l.

(** The tags of every timing sample. *)
Definition timing_tags (l : list effect) : list (list (string * string)) :=
  omap (fun e => match e with
                 | MetricsTiming _ RequestProcessingTime _ tags => Some tags
                 | _ => None
                 end) l.

(** The call an event is addressed to. *)
Definition target (ev : event) : option nat :=
  match ev with
  | Next c | Return c | ReadyCallback c _ | UnaryCallback c _ _ | StreamEvent c _ => Some c
  | Invoke _ _ _ | Initialize _ | Dispose | Tick _ _ => None
  end.

(** The call got as far as [client.makeServerStreamRequest]: its stream
    exists. *)
Definition opened (cl : call) : Prop :=
  match cl with
  | Streaming _ _ (GenDelegating | GenCompleted | GenDelegatingThenReturn _) _ (Some _) => True
  | _ => False
  end.

(** The registry holds no stream twice, and only streams that exist. *)
Definition registry_ok (pending : list nat) (cs : list call) : Prop :=
  NoDup pending /\
  forall x, x ∈ pending -> exists cl, cs !! x = Some cl /\ opened cl.

(** The time, on the [performance] clock, that passes during [evs]. *)
Definition elapsed_us (evs : list event) : Z :=
  foldr (fun ev acc => match ev with Tick _ us => (us + acc)%Z | _ => acc end) 0%Z evs.

(** A state that differs from [s] in its log only. *)
Definition with_log (l : list effect) (s : state) : state := set_log (fun _ => l) s.

(** The events of the ordinary life of a stream: opening, flow, the
    transport's last word, the ["close"] of the stream. *)
Definition stream_life (s : state) (key : string) (request : jsval)
    (spanContext : SpanContext) (c : nat) (t1 t2 : Z * Z) (flow : list event)
    (fin : stream_event) : list event :=
  stream_opening s key request spanContext c t1 t2
  ++ flow ++ [StreamEvent c fin; StreamEvent c Close].

(** ** More concrete runs of the demo service *)

Module Runs.

(** The context that the hosting framework hands to [initialize]. *)
Definition hosted : IComponentContext :=
  {| ctx_tracer := {| tracer_id := 7; tracer_inject := fun _ => [("x-trace-id", "t7")] |};
     ctx_metrics := 9 |}.

(** [Echo] and [Ping] were invoked, one after the other, and both wait for
    the connection. *)
Definition two_waiting : state :=
  run Demo.config [Invoke "Echo" (VStr "hi") "ctx"; Invoke "Ping" VNull "ctx"] Demo.fresh.

(** [Echo] waits for the connection while the proxy is initialized. *)
Definition initialized_late : list event :=
  [Tick 5 5000; ReadyCallback 0 None; Tick 7 7400].

(** The consumer of the open stream on [Feed] was handed its first chunk. *)
Definition feed_served : state :=
  run Demo.config [StreamEvent 0 (Data (VNum 1))] Demo.feed_open.

(** The stream on [Feed] was ended by the transport. *)
Definition feed_ended : state :=
  run Demo.config (Demo.feed_flow ++ [StreamEvent 0 End]) Demo.feed_open.

End Runs.

(** * Properties *)

(** ** Lists and log views *)

Lemma lookup_snoc_length {A} (l : list A) (x : A) : (l ++ [x]) !! length l = Some x.
Proof. by apply list_lookup_middle. Qed.

Lemma insert_snoc_length {A} (l : list A) (x y : A) :
  <[length l := y]> (l ++ [x]) = l ++ [y].
Proof. rewrite insert_app_r_alt by lia. by rewrite Nat.sub_diag. Qed.

Lemma settlements_app c l1 l2 :
  settlements c (l1 ++ l2) = settlements c l1 ++ settlements c l2.
Proof. apply omap_app. Qed.

Lemma settlements_Settle c rs : settlements c (Settle c <$> rs) = rs.
Proof.
  induction rs as [|r rs IH]; [done|].
  cbn. rewrite decide_True by done. cbn. f_equal. exact IH.
Qed.

Lemma omap_Settle_None {B} (f : effect -> option B) c rs :
  (forall r, f (Settle c r) = None) -> omap f (Settle c <$> rs) = [].
Proof.
  intros Hf. induction rs as [|r rs IH]; [done|].
  cbn. rewrite Hf. exact IH.
Qed.

Lemma omap_StreamCancel_None {B} (f : effect -> option B) (l : list nat) :
  (forall x, f (StreamCancel x) = None) -> omap f (StreamCancel <$> l) = [].
Proof.
  intros Hf. induction l as [|x l IH]; [done|].
  cbn. rewrite Hf. exact IH.
Qed.

(** ** The monad *)

Lemma for_each_emit {A} (f : A -> effect) (l : list A) (s : state) :
  for_each l (fun x => emit (f x)) s = ((), set_log (fun l0 => l0 ++ (f <$> l)) s).
Proof.
  revert s. induction l as [|x l IH]; intros s.
  - cbn. unfold mret, M_ret, set_log. rewrite app_nil_r. by destruct s.
  - cbn. unfold mbind, M_bind, emit, modify. rewrite IH.
    unfold set_log. cbn. by rewrite <- app_assoc.
Qed.

Lemma for_each_append {A} (f : A -> effect) (l : list A) (s : state) :
  for_each l (fun x s0 => ((), set_log (fun l0 => l0 ++ [f x]) s0)) s
  = ((), set_log (fun l0 => l0 ++ (f <$> l)) s).
Proof. apply (for_each_emit f). Qed.

Lemma since_app s s' d : log s' = log s ++ d -> since s s' = d.
Proof. intros E. unfold since. rewrite E. apply drop_app_length. Qed.

(** ** What the consumer of a stream is handed *)

Lemma handed_length chunks r n : length (handed chunks (Some r) n) = n.
Proof.
  revert chunks. induction n as [|n IH]; intros [|v chunks]; cbn; try done.
  - by rewrite repeat_length.
  - by rewrite IH.
Qed.

Lemma handed_values chunks outcome n :
  n ≤ length chunks -> handed chunks outcome n = IterValue <$> take n chunks.
Proof.
  revert chunks. induction n as [|n IH]; intros [|v chunks] H; cbn in *; try done; try lia.
  f_equal. apply IH. lia.
Qed.

Lemma handed_outcome chunks r n :
  length chunks < n ->
  handed chunks (Some r) n
  = (IterValue <$> chunks) ++ r :: repeat IterDone (n - S (length chunks)).
Proof.
  revert chunks. induction n as [|n IH]; intros [|v chunks] H; cbn in *; try lia.
  - by rewrite Nat.sub_0_r.
  - f_equal. apply IH. lia.
Qed.

Lemma handed_open chunks n : handed chunks None n = IterValue <$> take n chunks.
Proof.
  revert chunks. induction n as [|n IH]; intros [|v chunks]; cbn; try done.
  f_equal. apply IH.
Qed.

Lemma handed_next_value chunks outcome n v :
  chunks !! n = Some v ->
  handed chunks outcome (S n) = handed chunks outcome n ++ [IterValue v].
Proof.
  intros H. pose proof (lookup_lt_Some _ _ _ H) as Hlt.
  rewrite !handed_values by lia. rewrite (take_S_r _ _ _ H). by rewrite fmap_app.
Qed.

Lemma handed_next_pending chunks n :
  length chunks ≤ n -> handed chunks None (S n) = handed chunks None n.
Proof. intros H. rewrite !handed_open. by rewrite !take_ge by lia. Qed.

Lemma handed_next_outcome chunks r :
  handed chunks (Some r) (S (length chunks)) = handed chunks (Some r) (length chunks) ++ [r].
Proof.
  rewrite handed_outcome by lia. rewrite handed_values by lia.
  rewrite take_ge by lia. by rewrite Nat.sub_diag.
Qed.

Lemma handed_next_done chunks r n :
  length chunks < n ->
  handed chunks (Some r) (S n) = handed chunks (Some r) n ++ [IterDone].
Proof.
  intros H. rewrite !handed_outcome by lia.
  replace (S n - S (length chunks)) with (S (n - S (length chunks))) by lia.
  cbn [repeat]. rewrite repeat_cons. by rewrite <- app_assoc.
Qed.

Lemma handed_chunk_queued chunks n v :
  n ≤ length chunks -> handed (chunks ++ [v]) None n = handed chunks None n.
Proof. intros H. rewrite !handed_open. by rewrite take_app_le. Qed.

Lemma handed_chunk_served chunks n v :
  length chunks < n -> handed (chunks ++ [v]) None n = handed chunks None n ++ [IterValue v].
Proof.
  intros H. rewrite !handed_open.
  rewrite !take_ge by (rewrite ?length_app; cbn; lia). by rewrite fmap_app.
Qed.

Lemma handed_terminal chunks r n :
  handed chunks (Some r) n
  = handed chunks None n
    ++ (if decide (n ≤ length chunks) then []
        else r :: repeat IterDone (n - S (length chunks))).
Proof.
  case_decide as H.
  - rewrite app_nil_r. by rewrite !handed_values by lia.
  - rewrite handed_outcome by lia. rewrite handed_open. by rewrite take_ge by lia.
Qed.

Lemma since_same s s' : log s' = log s -> since s s' = [].
Proof. intros E. unfold since. rewrite E. apply drop_all. Qed.

Section Properties.

Variable config : Config.

Lemma wrapper_lookup key :
  wrapper config !! key = install key <$> (serviceDef config !! key).
Proof.
  unfold wrapper. rewrite map_lookup_imap.
  by destruct (serviceDef config !! key).
Qed.

Lemma run_nil s : run config [] s = s.
Proof. reflexivity. Qed.

Lemma run_cons ev evs s :
  run config (ev :: evs) s = run config evs (exec (step config ev) s).
Proof. reflexivity. Qed.

Lemma run_app evs1 evs2 s :
  run config (evs1 ++ evs2) s = run config evs2 (run config evs1 s).
Proof. unfold run. apply foldl_app. Qed.

Lemma run_snoc evs ev s :
  run config (evs ++ [ev]) s = exec (step config ev) (run config evs s).
Proof. by rewrite run_app. Qed.

Lemma delegate_exec key method c demand w s :
  delegate key method c demand w s =
  (Streaming key method
     (if (drain demand (w_pipe w)).2 then GenCompleted else GenDelegating)
     (drain demand (w_pipe w)).1.1.2
     (Some {| w_pipe := (drain demand (w_pipe w)).1.2;
              w_span := w_span w; w_startTime := w_startTime w |}),
   set_log (fun l => l ++ (Settle c <$> (drain demand (w_pipe w)).1.1.1)) s).
Proof.
  unfold delegate. destruct (drain demand (w_pipe w)) as [[[rs d'] p'] fin].
  unfold mbind, M_bind. rewrite for_each_emit. reflexivity.
Qed.

Lemma delegate_return_exec key method c demand behind w s :
  delegate_return key method c demand behind w s =
  (match (drain demand (w_pipe w)).1.1.2 with
   | S d' =>
       Streaming key method (GenDelegatingThenReturn behind) (S d')
         (Some {| w_pipe := (drain demand (w_pipe w)).1.2;
                  w_span := w_span w; w_startTime := w_startTime w |})
   | O =>
       Streaming key method GenCompleted 0
         (Some {| w_pipe := if (drain demand (w_pipe w)).2
                            then (drain demand (w_pipe w)).1.2
                            else pipe_return (drain demand (w_pipe w)).1.2;
                  w_span := w_span w; w_startTime := w_startTime w |})
   end,
   set_log (fun l => l ++ (Settle c <$> (drain demand (w_pipe w)).1.1.1
                                        ++ match (drain demand (w_pipe w)).1.1.2 with
                                           | S _ => []
                                           | O => repeat IterDone (S behind)
                                           end)) s).
Proof.
  unfold delegate_return. destruct (drain demand (w_pipe w)) as [[[rs d'] p'] fin].
  unfold mbind, M_bind. rewrite for_each_emit. destruct d'; cbn [fst snd].
  - rewrite for_each_emit. unfold mret, M_ret. f_equal.
    destruct s; unfold set_log; cbn. by rewrite fmap_app, app_assoc.
  - unfold mret, M_ret. by rewrite app_nil_r.
Qed.

End Properties.

Arguments run : simpl never.
Arguments delegate : simpl never.
Arguments delegate_return : simpl never.
Arguments Metadata_of : simpl never.

(** Symbolic execution of one turn of the event loop. *)
Ltac munfold :=
  unfold exec, step, invoke, gen_next, gen_return, unary_call, stream_start,
    unary_ready, stream_ready, stream_ready_return, unary_callback, on_data, on_end,
    on_error, on_close, resume, unary_request, stream_open, stream_open_return,
    whenReady, whenReady_callback,
    callOptions, createCallSpan, createTracingMetadata, emitTimerMetric,
    failSpan, addStream, set_call, initialize, dispose, emit, modify, gets,
    mbind, M_bind, mret, M_ret; cbn;
  unfold is_ready; cbn.

Ltac mstep :=
  munfold;
  rewrite ?insert_snoc_length, ?lookup_snoc_length, ?delegate_exec, ?delegate_return_exec,
    ?for_each_append;
  munfold.

Ltac turn := rewrite run_cons; mstep.

(** Case analysis on an innermost scrutinee of the goal. *)
Ltac break_match :=
  match goal with
  | |- context [match ?x with _ => _ end] =>
      lazymatch x with
      | context [match _ with _ => _ end] => fail
      | _ => destruct x eqn:?
      end
  end.

Ltac mcases := mstep; repeat (break_match; mstep).

Ltac read_log :=
  rewrite ?run_nil;
  first [ rewrite since_same by reflexivity
        | erewrite since_app by (cbn; rewrite <- ?app_assoc; reflexivity) ];
  cbn.

(** Push the views of the log through an explicit list of effects. *)
Ltac views :=
  unfold waits, increments, timings, spans_started, spans_finished, spans_failed,
    processed_results, unary_deadlines, stream_deadlines;
  cbn;
  repeat (progress (rewrite ?omap_app, ?omap_Settle_None by (intros ?; reflexivity); cbn));
  repeat (first [rewrite decide_True by done | rewrite decide_False by done]); cbn.

Section Claims.

Variable config : Config.

Lemma install_unary key method :
  serviceDef config !! key = Some method ->
  requestStream method = false ->
  responseStream method = false ->
  wrapper config !! key = Some (UnaryExecutor key method).
Proof.
  intros Hk Hq Hp. rewrite wrapper_lookup, Hk. cbn. unfold install. by rewrite Hq, Hp.
Qed.

Lemma install_stream key method :
  serviceDef config !! key = Some method ->
  requestStream method = false ->
  responseStream method = true ->
  wrapper config !! key = Some (ServerStreamExecutor key method).
Proof.
  intros Hk Hq Hp. rewrite wrapper_lookup, Hk. cbn. unfold install. by rewrite Hq, Hp.
Qed.

Lemma install_stub key method :
  serviceDef config !! key = Some method ->
  requestStream method = true ->
  wrapper config !! key = Some ClientStreamStub.
Proof.
  intros Hk Hq. rewrite wrapper_lookup, Hk. cbn. unfold install. by rewrite Hq.
Qed.

(** C3. A method whose descriptor has [requestStream] set: whatever the
    arguments, the invocation throws the "client-side streams are not
    supported" error at once; nothing is appended to the effect log, so no
    transport primitive (nor anything else) is invoked, and no stream is
    registered. *)
Theorem request_stream_unsupported (s : state) (key : string) (method : MethodDefinition)
    (request : jsval) (spanContext : SpanContext) :
  serviceDef config !! key = Some method ->
  requestStream method = true ->
  let s' := exec (step config (Invoke key request spanContext)) s in
  calls s' = calls s ++ [Threw client_streams_unsupported] /\
  log s' = log s /\
  pendingStreams s' = pendingStreams s.
Proof.
  intros Hk Hq s'. subst s'. munfold.
  rewrite (install_stub key method Hk Hq). cbn. done.
Qed.

Lemma suspended_until_next (s : state) (c : nat) (key : string)
    (method : MethodDefinition) (request : jsval) (spanContext : SpanContext)
    (ev : event) :
  calls s !! c = Some (Streaming key method (GenSuspendedStart request spanContext) 0 None) ->
  ev ≠ Next c -> ev ≠ Return c ->
  calls (exec (step config ev) s) !! c
  = Some (Streaming key method (GenSuspendedStart request spanContext) 0 None).
Proof.
  intros Hc Hn Hr. pose proof (lookup_lt_Some _ _ _ Hc) as Hlen.
  destruct ev as [k rq sc | c0 | c0 | c0 err | c0 err v | c0 sev | | | ].
  - mcases; cbn; rewrite ?lookup_app_l by done; exact Hc.
  - destruct (decide (c0 = c)) as [->|Hne]; [done|].
    mcases; cbn; rewrite ?list_lookup_insert_ne by done; exact Hc.
  - destruct (decide (c0 = c)) as [->|Hne]; [done|].
    mcases; cbn; rewrite ?list_lookup_insert_ne by done; exact Hc.
  - destruct (decide (c0 = c)) as [->|Hne]; [mstep; rewrite Hc; mstep; exact Hc|].
    mcases; cbn; rewrite ?list_lookup_insert_ne by done; exact Hc.
  - destruct (decide (c0 = c)) as [->|Hne]; [mstep; rewrite Hc; mstep; exact Hc|].
    mcases; cbn; rewrite ?list_lookup_insert_ne by done; exact Hc.
  - destruct (decide (c0 = c)) as [->|Hne]; [mstep; rewrite Hc; mstep; exact Hc|].
    mcases; cbn; rewrite ?list_lookup_insert_ne by done; exact Hc.
  - mstep. exact Hc.
  - mstep. exact Hc.
  - mstep. exact Hc.
Qed.

(** C10. Invoking a server-streaming method only creates the sequence:
    nothing is appended to the effect log (no metric, no span, no readiness
    wait, no transport request), the registry and the readiness flags are
    untouched.  Whatever else happens on the proxy, the body stays unstarted
    for as long as the sequence is not asked for anything; it runs when the
    first value is requested, and that turn starts with the [request_sent]
    increment. *)
Theorem streaming_call_is_lazy (s : state) (key : string) (method : MethodDefinition)
    (request : jsval) (spanContext : SpanContext) :
  serviceDef config !! key = Some method ->
  requestStream method = false ->
  responseStream method = true ->
  let c := length (calls s) in
  let s' := exec (step config (Invoke key request spanContext)) s in
  log s' = log s /\
  pendingStreams s' = pendingStreams s /\
  ready s' = ready s /\
  calls s' = calls s ++ [Streaming key method (GenSuspendedStart request spanContext) 0 None] /\
  (forall evs,
     Forall (fun ev => ev ≠ Next c /\ ev ≠ Return c) evs ->
     calls (run config evs s') !! c
     = Some (Streaming key method (GenSuspendedStart request spanContext) 0 None)) /\
  exists rest,
    since s (exec (step config (Next c)) s')
    = MetricsIncrement (metrics s) RequestSent
        [("path", path method); ("endpoint", endpoint config)] :: rest.
Proof.
  intros Hk Hq Hp c s'.
  assert (Hs' : s' = set_calls
                  (fun l => l ++ [Streaming key method
                                    (GenSuspendedStart request spanContext) 0 None]) s).
  { subst s'. mstep. rewrite (install_stream key method Hk Hq Hp). by mstep. }
  rewrite Hs'. clear Hs' s'. subst c.
  split; [done|]. split; [done|]. split; [done|]. split; [done|]. split.
  - intros evs Hevs.
    assert (H0 : calls (set_calls
                          (fun l => l ++ [Streaming key method
                                            (GenSuspendedStart request spanContext) 0 None]) s)
                 !! length (calls s)
                 = Some (Streaming key method (GenSuspendedStart request spanContext) 0 None))
      by apply lookup_snoc_length.
    revert H0. generalize (set_calls
                          (fun l => l ++ [Streaming key method
                                            (GenSuspendedStart request spanContext) 0 None]) s).
    induction Hevs as [|ev evs [Hn Hr] _ IH]; intros s0 H0; [exact H0|].
    rewrite run_cons. apply IH. by apply suspended_until_next.
  - mstep.
    destruct (default false (ready s !! key)) eqn:Hr; mstep.
    + eexists. read_log. reflexivity.
    + eexists. read_log. reflexivity.
Qed.

(** The effects of one unary call, in order. *)
Lemma unary_exchange_log (s : state) (key : string) (method : MethodDefinition)
    (request : jsval) (spanContext : SpanContext) (t1 t2 : Z * Z)
    (error : option Error) (value : jsval) :
  serviceDef config !! key = Some method ->
  requestStream method = false ->
  responseStream method = false ->
  let c := length (calls s) in
  let s' := run config (unary_exchange s key request spanContext c t1 t2 error value) s in
  since s s' =
    [MetricsIncrement (metrics s) RequestSent
       [("path", path method); ("endpoint", endpoint config)];
     StartSpan (tracer_id (tracer s)) c "Grpc Client Call" spanContext;
     SetTag c SAMPLING_PRIORITY (TagNum 1);
     SetTag c SPAN_KIND SPAN_KIND_RPC_CLIENT;
     SetTag c COMPONENT (TagStr "cookie-cutter-grpc");
     SetTag c RpcCall (TagStr (path method));
     SetTag c RpcHost (TagStr (endpoint config));
     SetTag c RpcFlavor (TagStr "grpc")]
    ++ (if is_ready key s then []
        else [WaitForReady c (date_now s + connectionTimeout config)])
    ++ [Inject (tracer_id (tracer s)) c;
        MakeUnaryRequest c method request (Metadata_of (tracer_inject (tracer s) c))
          {| deadline := Some ((if is_ready key s then date_now s else date_now s + t1.1)
                               + requestTimeout config)%Z |};
        MetricsIncrement (metrics s) RequestProcessed
          [("path", path method); ("endpoint", endpoint config);
           ("result", GrpcMetricResult_name
                        match error with Some _ => Error_ | None => Success end)];
        MetricsTiming (metrics s) RequestProcessingTime
          (Math_round (perf_now s + t1.2 + t2.2 - perf_now s))
          [("path", path method); ("endpoint", endpoint config)]]
    ++ match error with
       | Some e => [FailSpan c e; FinishSpan c; Settle c (RejectedWith e)]
       | None => [FinishSpan c; Settle c (Fulfilled value)]
       end.
Proof.
  intros Hk Hq Hp c s'. subst c s'. unfold unary_exchange.
  pose proof (install_unary key method Hk Hq Hp) as Hw.
  unfold is_ready. destruct (default false (ready s !! key)) eqn:Hr; cbn [app].
  - turn. rewrite Hw. mstep. rewrite Hr, Hp. mstep.
    turn. turn. turn.
    destruct error as [e|]; mstep; read_log; reflexivity.
  - turn. rewrite Hw. mstep. rewrite Hr. mstep.
    turn. turn. rewrite Hp. turn. turn.
    destruct error as [e|]; mstep; read_log; reflexivity.
Qed.

(** C6. A unary call that the transport completes without error: the
    caller's promise is fulfilled, once, with the transport's value; the one
    [request_processed] increment carries [result=success]; the span is
    finished once and never marked failed. *)
Theorem unary_success (s : state) (key : string) (method : MethodDefinition)
    (request : jsval) (spanContext : SpanContext) (t1 t2 : Z * Z) (value : jsval) :
  serviceDef config !! key = Some method ->
  requestStream method = false ->
  responseStream method = false ->
  let c := length (calls s) in
  let s' := run config (unary_exchange s key request spanContext c t1 t2 None value) s in
  settlements c (since s s') = [Fulfilled value] /\
  processed_results (since s s') = [Some "success"] /\
  spans_finished (since s s') = [c] /\
  spans_failed (since s s') = [].
Proof.
  intros Hk Hq Hp c s'. subst c s'.
  rewrite (unary_exchange_log s key method request spanContext t1 t2 None value Hk Hq Hp).
  destruct (is_ready key s); cbn; rewrite decide_True by done; done.
Qed.

(** C7. A unary call for which the transport yields the error [e]: the
    caller's promise is rejected, once, with [e] itself; the one
    [request_processed] increment carries [result=error]; marking the span
    failed and finishing it are the last two effects before the rejection. *)
Theorem unary_failure (s : state) (key : string) (method : MethodDefinition)
    (request : jsval) (spanContext : SpanContext) (t1 t2 : Z * Z)
    (e : Error) (value : jsval) :
  serviceDef config !! key = Some method ->
  requestStream method = false ->
  responseStream method = false ->
  let c := length (calls s) in
  let s' := run config (unary_exchange s key request spanContext c t1 t2 (Some e) value) s in
  settlements c (since s s') = [RejectedWith e] /\
  processed_results (since s s') = [Some "error"] /\
  spans_failed (since s s') = [(c, e)] /\
  spans_finished (since s s') = [c] /\
  exists before,
    since s s' = before ++ [FailSpan c e; FinishSpan c; Settle c (RejectedWith e)].
Proof.
  intros Hk Hq Hp c s'. subst c s'.
  rewrite (unary_exchange_log s key method request spanContext t1 t2 (Some e) value Hk Hq Hp).
  repeat split.
  1-4: destruct (is_ready key s); cbn; rewrite ?decide_True by done; done.
  eexists. rewrite !app_assoc. reflexivity.
Qed.

(** ** The readiness flag *)

Lemma is_ready_insert key k (r : gmap string bool) :
  default false (r !! k) = true ->
  default false (<[key := true]> r !! k) = true.
Proof.
  intros H. destruct (decide (key = k)) as [->|Hne].
  - by rewrite lookup_insert_eq.
  - by rewrite lookup_insert_ne.
Qed.

Lemma step_keeps_ready (ev : event) (s : state) (k : string) :
  is_ready k s = true -> is_ready k (exec (step config ev) s) = true.
Proof.
  intros H. destruct ev; mcases;
    solve [exact H | apply is_ready_insert; exact H].
Qed.

Lemma run_keeps_ready (evs : list event) (s : state) (k : string) :
  is_ready k s = true -> is_ready k (run config evs s) = true.
Proof.
  revert s. induction evs as [|ev evs IH]; intros s H; [exact H|].
  rewrite run_cons. apply IH. by apply step_keeps_ready.
Qed.

Lemma ready_skips_wait_invoke (s : state) (key : string) (request : jsval)
    (spanContext : SpanContext) :
  is_ready key s = true ->
  waits (since s (exec (step config (Invoke key request spanContext)) s)) = [].
Proof.
  intros H. unfold is_ready in H. mstep.
  rewrite wrapper_lookup. destruct (serviceDef config !! key) as [method|]; cbn;
    [|read_log; done].
  unfold install. destruct (requestStream method), (responseStream method);
    mstep; rewrite ?H; mstep; read_log; done.
Qed.

Lemma ready_skips_wait_next (s : state) (key : string) (c : nat)
    (method : MethodDefinition) (phase : gen_phase) (demand : nat)
    (wired : option wiring) :
  is_ready key s = true ->
  calls s !! c = Some (Streaming key method phase demand wired) ->
  waits (since s (exec (step config (Next c)) s)) = [].
Proof.
  intros H Hc. unfold is_ready in H. mstep. rewrite Hc.
  destruct phase, wired; mstep; rewrite ?H; mstep; read_log; views; done.
Qed.

(** C1 (as amended). The readiness flag belongs to the callable of one
    method.  When a call on [key] observes the connection become ready, the
    flags of the other methods are left as they were; the flag of [key] stays
    set through whatever happens next, and from then on neither invoking
    [key] nor starting a sequence obtained from [key] waits for readiness. *)
Theorem readiness_is_per_method (s : state) (c : nat) (cl : call) (key : string)
    (evs : list event) :
  calls s !! c = Some cl ->
  awaiting_ready key cl ->
  let s1 := exec (step config (ReadyCallback c None)) s in
  let s2 := run config evs s1 in
  (forall k, k ≠ key -> is_ready k s1 = is_ready k s) /\
  is_ready key s2 = true /\
  (forall request spanContext,
     waits (since s2 (exec (step config (Invoke key request spanContext)) s2)) = []) /\
  (forall c' method phase demand wired,
     calls s2 !! c' = Some (Streaming key method phase demand wired) ->
     waits (since s2 (exec (step config (Next c')) s2)) = []).
Proof.
  intros Hc Haw s1 s2.
  assert (H1 : is_ready key s1 = true /\
               forall k, k ≠ key -> is_ready k s1 = is_ready k s).
  { subst s1. mstep. rewrite Hc.
    destruct cl as [| k m rq sp st | | | k m [| rq sp st | | | rq sp st b | b] d w];
      cbn in Haw; try done; subst k; mcases;
      (split; [by rewrite lookup_insert_eq | intros k Hk; by rewrite lookup_insert_ne]). }
  destruct H1 as [Hkey Hother].
  assert (H2 : is_ready key s2 = true) by (by apply run_keeps_ready).
  repeat split.
  - exact Hother.
  - exact H2.
  - intros. by apply ready_skips_wait_invoke.
  - intros c' method phase demand wired Hc'. by eapply ready_skips_wait_next.
Qed.

(** ** Disposal *)

(** C4 (as amended). [dispose()] sends a cancellation to every stream of the
    registry, in registry order, and then closes the connection; it removes
    nothing from the registry, which after [dispose()] holds what it held
    before.  With no stream pending it just closes the connection, and the
    registry is empty as it was.  A stream leaves the registry when its
    ["close"] event is delivered. *)
Theorem dispose_cancels_and_closes (s : state) :
  let s' := exec (step config Dispose) s in
  since s s' = (StreamCancel <$> pendingStreams s) ++ [ClientClose] /\
  pendingStreams s' = pendingStreams s /\
  (pendingStreams s = [] -> since s s' = [ClientClose] /\ pendingStreams s' = []) /\
  (forall c key method phase demand w,
     calls s' !! c = Some (Streaming key method phase demand (Some w)) ->
     c ∉ pendingStreams (exec (step config (StreamEvent c Close)) s')).
Proof.
  intros s'. subst s'. mstep.
  assert (E : since s
                (set_log (fun l => l ++ [ClientClose])
                   (set_log (fun l0 => l0 ++ (StreamCancel <$> pendingStreams s)) s))
              = (StreamCancel <$> pendingStreams s) ++ [ClientClose]).
  { apply since_app. cbn. by rewrite <- app_assoc. }
  split; [exact E|]. split; [reflexivity|]. split.
  - intros Hp. rewrite E, Hp. done.
  - intros c key method phase demand w Hc. mstep. cbn in Hc. rewrite Hc. mstep.
    unfold Set_delete. rewrite list_elem_of_filter. tauto.
Qed.

(** ** Late chunks *)

(** C9. A chunk that the transport delivers to a bridge that is already
    closed or failed changes nothing at all: it is not queued, no caller is
    handed anything, nothing is reported to the transport or to any other
    collaborator. *)
Theorem late_chunk_discarded (s : state) (c : nat) (key : string)
    (method : MethodDefinition) (phase : gen_phase) (demand : nat) (w : wiring)
    (chunk : jsval) :
  calls s !! c = Some (Streaming key method phase demand (Some w)) ->
  term (w_pipe w) ≠ TOpen ->
  exec (step config (StreamEvent c (Data chunk))) s = s.
Proof.
  intros Hc Ht. mstep. rewrite Hc. mstep. unfold pipe_send.
  destruct (term (w_pipe w)) eqn:E; [done| |]; cbn;
    unfold set_calls; rewrite (list_insert_id _ _ _ Hc); by destruct s.
Qed.

(** ** Deadlines *)

Lemma step_calls_ok (ev : event) (s : state) :
  Forall call_ok (calls s) -> Forall call_ok (calls (exec (step config ev) s)).
Proof.
  intros H.
  assert (Hl : forall c cl, calls s !! c = Some cl -> call_ok cl)
    by (intros c cl; apply (Forall_lookup_1 _ _ _ _ H)).
  destruct ev; mstep.
  - rewrite wrapper_lookup. destruct (serviceDef config !! key) as [m|]; cbn; [|done].
    unfold install.
    destruct (requestStream m) eqn:Hq, (responseStream m) eqn:Hp; mcases;
      apply Forall_app; split; try done; by repeat constructor.
  - destruct (calls s !! c) as [cl|] eqn:Hc; [|done].
    specialize (Hl _ _ Hc). destruct cl; mcases; try done;
      apply Forall_insert; done.
  - destruct (calls s !! c) as [cl|] eqn:Hc; [|done].
    specialize (Hl _ _ Hc). destruct cl; mcases; try done;
      apply Forall_insert; done.
  - destruct (calls s !! c) as [cl|] eqn:Hc; [|done].
    specialize (Hl _ _ Hc). destruct cl; mcases; try done;
      apply Forall_insert; done.
  - destruct (calls s !! c) as [cl|] eqn:Hc; [|done].
    specialize (Hl _ _ Hc). destruct cl; mcases; try done;
      apply Forall_insert; done.
  - destruct (calls s !! c) as [cl|] eqn:Hc; [|done].
    specialize (Hl _ _ Hc). destruct cl; mcases; try done;
      apply Forall_insert; done.
  - done.
  - done.
  - done.
Qed.

Lemma reachable_calls_ok (s : state) : reachable config s -> Forall call_ok (calls s).
Proof.
  intros (dflt & date & perf & evs & ->).
  induction evs as [|ev evs IH] using rev_ind; [by constructor|].
  rewrite run_snoc. by apply step_calls_ok.
Qed.

Lemma step_deadlines (ev : event) (s : state) :
  Forall call_ok (calls s) ->
  let s' := exec (step config ev) s in
  Forall (eq (Some (date_now s + requestTimeout config)%Z)) (unary_deadlines (since s s')) /\
  Forall (eq None) (stream_deadlines (since s s')).
Proof.
  intros H s'. subst s'.
  assert (Hl : forall c cl, calls s !! c = Some cl -> call_ok cl)
    by (intros c cl; apply (Forall_lookup_1 _ _ _ _ H)).
  destruct ev; mstep.
  - rewrite wrapper_lookup. destruct (serviceDef config !! key) as [m|]; cbn;
      [|read_log; done].
    unfold install.
    destruct (requestStream m) eqn:Hq, (responseStream m) eqn:Hp; mcases;
      read_log; views; rewrite ?Hp; by repeat constructor.
  - destruct (calls s !! c) as [cl|] eqn:Hc; [|read_log; done].
    specialize (Hl _ _ Hc). destruct cl; cbn in Hl; mcases;
      read_log; views; try congruence; by repeat constructor.
  - destruct (calls s !! c) as [cl|] eqn:Hc; [|read_log; done].
    specialize (Hl _ _ Hc). destruct cl; cbn in Hl; mcases;
      read_log; views; try congruence; by repeat constructor.
  - destruct (calls s !! c) as [cl|] eqn:Hc; [|read_log; done].
    specialize (Hl _ _ Hc). destruct cl; cbn in Hl; mcases;
      read_log; views; try congruence; by repeat constructor.
  - destruct (calls s !! c) as [cl|] eqn:Hc; [|read_log; done].
    specialize (Hl _ _ Hc). destruct cl; cbn in Hl; mcases;
      read_log; views; try congruence; by repeat constructor.
  - destruct (calls s !! c) as [cl|] eqn:Hc; [|read_log; done].
    specialize (Hl _ _ Hc). destruct cl; cbn in Hl; mcases;
      read_log; views; try congruence; by repeat constructor.
  - read_log. done.
  - read_log. views. rewrite !omap_StreamCancel_None by done. done.
  - read_log. done.
Qed.

(** ** A stream, turn by turn *)

Section Stream.

Variables (c : nat) (key : string) (method : MethodDefinition) (span : nat)
  (startTime : Z).

Local Abbreviation record := (stream_record key method span startTime).

(** The consumer asks for a value. *)
Lemma next_turn (s : state) (n : nat) (chunks : list jsval) (t : terminal) :
  calls s !! c = Some (record n chunks t) ->
  let s' := exec (step config (Next c)) s in
  calls s' !! c = Some (record (S n) chunks t) /\
  exists X,
    log s' = log s ++ (Settle c <$> X) /\
    handed chunks (outcome_of t) (S n) = handed chunks (outcome_of t) n ++ X.
Proof.
  intros Hc s'. subst s'.
  pose proof (lookup_lt_Some _ _ _ Hc) as Hlen.
  mstep. rewrite Hc. unfold stream_record.
  destruct (decide (n < length chunks)) as [Hlt|Hge].
  - (* a chunk is waiting *)
    destruct (lookup_lt_is_Some_2 chunks n Hlt) as [v Hv].
    rewrite (drop_S _ _ _ Hv).
    replace (n - length chunks) with 0 by lia.
    replace (S n - length chunks) with 0 by lia.
    rewrite !(decide_True (P := n ≤ length chunks)) by lia.
    rewrite !(decide_True (P := S n ≤ length chunks)) by lia.
    destruct t; mstep; (split; [by rewrite list_lookup_insert_eq|]);
      exists [IterValue v]; (split; [reflexivity|]);
      by apply handed_next_value.
  - rewrite !(drop_ge chunks) by lia.
    rewrite !(decide_False (P := S n ≤ length chunks)) by lia.
    destruct t as [| |e].
    + (* nothing yet: the request stays outstanding *)
      replace (S n - length chunks) with (S (n - length chunks)) by lia.
      mstep. split; [by rewrite list_lookup_insert_eq|].
      exists []. split; [cbn; by rewrite app_nil_r|].
      rewrite app_nil_r. apply handed_next_pending. lia.
    + destruct (decide (n ≤ length chunks)) as [Hle|Hgt]; mstep;
        (split; [by rewrite list_lookup_insert_eq|]).
      * exists [IterDone]. split; [reflexivity|].
        replace n with (length chunks) by lia. apply handed_next_outcome.
      * exists [IterDone]. split; [reflexivity|].
        apply handed_next_done. lia.
    + destruct (decide (n ≤ length chunks)) as [Hle|Hgt]; mstep;
        (split; [by rewrite list_lookup_insert_eq|]).
      * exists [IterThrow e]. split; [reflexivity|].
        replace n with (length chunks) by lia. apply handed_next_outcome.
      * exists [IterDone]. split; [reflexivity|].
        apply handed_next_done. lia.
Qed.

(** The transport delivers a chunk to the open bridge. *)
Lemma data_turn (s : state) (n : nat) (chunks : list jsval) (v : jsval) :
  calls s !! c = Some (record n chunks TOpen) ->
  let s' := exec (step config (StreamEvent c (Data v))) s in
  calls s' !! c = Some (record n (chunks ++ [v]) TOpen) /\
  exists X,
    log s' = log s ++ (Settle c <$> X) /\
    handed (chunks ++ [v]) None n = handed chunks None n ++ X.
Proof.
  intros Hc s'. subst s'.
  pose proof (lookup_lt_Some _ _ _ Hc) as Hlen.
  mstep. rewrite Hc. unfold stream_record. rewrite length_app. cbn [length].
  destruct (decide (n ≤ length chunks)) as [Hle|Hgt].
  - (* nobody is waiting: the chunk is queued *)
    replace (n - length chunks) with 0 by lia.
    replace (n - (length chunks + 1)) with 0 by lia.
    rewrite drop_app_le by lia.
    mstep. split; [by rewrite list_lookup_insert_eq|].
    exists []. split; [cbn; by rewrite app_nil_r|].
    rewrite app_nil_r. by apply handed_chunk_queued.
  - (* the consumer is waiting: the chunk is handed over *)
    rewrite !drop_ge by (rewrite ?length_app; cbn; lia).
    replace (n - length chunks) with (S (n - (length chunks + 1))) by lia.
    mstep. destruct (n - (length chunks + 1)) eqn:E; mstep;
      (split; [by rewrite list_lookup_insert_eq|]);
      exists [IterValue v]; (split; [reflexivity|]);
      apply handed_chunk_served; lia.
Qed.

Lemma tick_turn (s : state) (cl : call) (ms us : Z) :
  calls s !! c = Some cl ->
  let s' := exec (step config (Tick ms us)) s in
  calls s' !! c = Some cl /\ log s' = log s.
Proof. intros Hc. by mstep. Qed.

(** The transport ends the stream. *)
Lemma end_turn (s : state) (n : nat) (chunks : list jsval) :
  calls s !! c = Some (record n chunks TOpen) ->
  let s' := exec (step config (StreamEvent c End)) s in
  calls s' !! c = Some (record n chunks TClosed) /\
  exists X,
    log s' = log s
             ++ [MetricsIncrement (metrics s) RequestProcessed
                   [("path", path method); ("result", "success");
                    ("endpoint", endpoint config)];
                 MetricsTiming (metrics s) RequestProcessingTime
                   (Math_round (perf_now s - startTime))
                   [("path", path method); ("endpoint", endpoint config)];
                 FinishSpan span]
             ++ (Settle c <$> X) /\
    handed chunks (Some IterDone) n = handed chunks None n ++ X.
Proof.
  intros Hc s'. subst s'.
  pose proof (lookup_lt_Some _ _ _ Hc) as Hlen.
  mstep. rewrite Hc. unfold stream_record. rewrite handed_terminal.
  destruct (decide (n ≤ length chunks)) as [Hle|Hgt].
  - replace (n - length chunks) with 0 by lia.
    mstep. split; [by rewrite list_lookup_insert_eq|].
    exists []. split; [cbn; by rewrite <- !app_assoc|done].
  - rewrite !drop_ge by lia.
    replace (n - length chunks) with (S (n - S (length chunks))) by lia.
    mstep. split; [by rewrite list_lookup_insert_eq|].
    exists (IterDone :: repeat IterDone (n - S (length chunks))).
    split; [cbn; by rewrite <- !app_assoc|done].
Qed.

(** The transport fails the stream. *)
Lemma error_turn (s : state) (n : nat) (chunks : list jsval) (e : Error) :
  calls s !! c = Some (record n chunks TOpen) ->
  let s' := exec (step config (StreamEvent c (Error_event e))) s in
  calls s' !! c = Some (record n chunks (TFailed e)) /\
  exists X,
    log s' = log s
             ++ [MetricsIncrement (metrics s) RequestProcessed
                   [("path", path method); ("result", "error");
                    ("endpoint", endpoint config)];
                 MetricsTiming (metrics s) RequestProcessingTime
                   (Math_round (perf_now s - startTime))
                   [("path", path method); ("endpoint", endpoint config)];
                 FailSpan span e;
                 FinishSpan span]
             ++ (Settle c <$> X) /\
    handed chunks (Some (IterThrow e)) n = handed chunks None n ++ X.
Proof.
  intros Hc s'. subst s'.
  pose proof (lookup_lt_Some _ _ _ Hc) as Hlen.
  mstep. rewrite Hc. unfold stream_record. rewrite handed_terminal.
  destruct (decide (n ≤ length chunks)) as [Hle|Hgt].
  - replace (n - length chunks) with 0 by lia.
    mstep. split; [by rewrite list_lookup_insert_eq|].
    exists []. split; [cbn; by rewrite <- !app_assoc|done].
  - rewrite !drop_ge by lia.
    replace (n - length chunks) with (S (n - S (length chunks))) by lia.
    mstep. split; [by rewrite list_lookup_insert_eq|].
    exists (IterThrow e :: repeat IterDone (n - S (length chunks))).
    split; [cbn; by rewrite <- !app_assoc|done].
Qed.

(** While the stream is open. *)
Lemma flowing_run (evs : list event) (s : state) (n : nat) (chunks : list jsval) :
  Forall (flowing c) evs ->
  calls s !! c = Some (record n chunks TOpen) ->
  let s' := run config evs s in
  calls s' !! c = Some (record (n + nexts evs) (chunks ++ chunks_of evs) TOpen) /\
  exists X,
    log s' = log s ++ (Settle c <$> X) /\
    handed (chunks ++ chunks_of evs) None (n + nexts evs) = handed chunks None n ++ X.
Proof.
  intros Hevs. revert s n chunks.
  induction Hevs as [|ev evs Hev Hevs IH]; intros s n chunks Hc.
  - cbn. rewrite run_nil, Nat.add_0_r, app_nil_r.
    split; [done|]. exists []. cbn. by rewrite !app_nil_r.
  - rewrite run_cons.
    destruct ev as [| c' | | | | c' [v| | |] | | |]; cbn in Hev; try done; try subst c'.
    + destruct (next_turn s n chunks TOpen Hc) as (Hc1 & X1 & Hl1 & Hh1).
      cbn [outcome_of] in Hh1.
      destruct (IH _ _ _ Hc1) as (Hc2 & X2 & Hl2 & Hh2).
      change (nexts (Next c :: evs)) with (S (nexts evs)).
      change (chunks_of (Next c :: evs)) with (chunks_of evs).
      rewrite Nat.add_succ_r. cbn [Nat.add] in Hc2, Hh2. split; [exact Hc2|].
      exists (X1 ++ X2). rewrite Hl2, Hl1, Hh2, Hh1.
      by rewrite fmap_app, <- !app_assoc.
    + destruct (data_turn s n chunks v Hc) as (Hc1 & X1 & Hl1 & Hh1).
      destruct (IH _ _ _ Hc1) as (Hc2 & X2 & Hl2 & Hh2).
      change (nexts (StreamEvent c (Data v) :: evs)) with (nexts evs).
      change (chunks_of (StreamEvent c (Data v) :: evs)) with (v :: chunks_of evs).
      rewrite (cons_middle v), app_assoc. split; [exact Hc2|].
      exists (X1 ++ X2). rewrite Hl2, Hl1, Hh2, Hh1.
      by rewrite fmap_app, <- !app_assoc.
    + destruct (tick_turn s _ ms us Hc) as (Hc1 & Hl1).
      destruct (IH _ _ _ Hc1) as (Hc2 & X2 & Hl2 & Hh2).
      change (nexts (Tick ms us :: evs)) with (nexts evs).
      change (chunks_of (Tick ms us :: evs)) with (chunks_of evs).
      split; [exact Hc2|].
      exists X2. by rewrite Hl2, Hl1.
Qed.

(** Once the transport is done with the stream. *)
Lemma consuming_run (evs : list event) (s : state) (n : nat) (chunks : list jsval)
    (t : terminal) :
  Forall (consuming c) evs ->
  calls s !! c = Some (record n chunks t) ->
  let s' := run config evs s in
  exists X,
    log s' = log s ++ (Settle c <$> X) /\
    handed chunks (outcome_of t) (n + nexts evs) = handed chunks (outcome_of t) n ++ X.
Proof.
  intros Hevs. revert s n.
  induction Hevs as [|ev evs Hev Hevs IH]; intros s n Hc.
  - cbn. rewrite run_nil, Nat.add_0_r. exists []. cbn. by rewrite !app_nil_r.
  - rewrite run_cons.
    destruct ev as [| c' | | | | | | |]; cbn in Hev; try done; try subst c'.
    + destruct (next_turn s n chunks t Hc) as (Hc1 & X1 & Hl1 & Hh1).
      destruct (IH _ _ Hc1) as (X2 & Hl2 & Hh2).
      change (nexts (Next c :: evs)) with (S (nexts evs)).
      rewrite Nat.add_succ_r. cbn [Nat.add] in Hh2.
      exists (X1 ++ X2). rewrite Hl2, Hl1, Hh2, Hh1.
      by rewrite fmap_app, <- !app_assoc.
    + destruct (tick_turn s _ ms us Hc) as (Hc1 & Hl1).
      destruct (IH _ _ Hc1) as (X2 & Hl2 & Hh2).
      change (nexts (Tick ms us :: evs)) with (nexts evs).
      exists X2. by rewrite Hl2, Hl1.
Qed.

End Stream.

(** The effects of opening a stream, in order, and the call's record
    afterwards. *)
Lemma stream_opening_run (s : state) (key : string) (method : MethodDefinition)
    (request : jsval) (spanContext : SpanContext) (t1 t2 : Z * Z) :
  serviceDef config !! key = Some method ->
  requestStream method = false ->
  responseStream method = true ->
  let c := length (calls s) in
  let s' := run config (stream_opening s key request spanContext c t1 t2) s in
  calls s' !! c = Some (stream_record key method c (perf_now s + t1.2) 1 [] TOpen) /\
  log s' = log s ++
    [MetricsIncrement (metrics s) RequestSent
       [("path", path method); ("endpoint", endpoint config)];
     StartSpan (tracer_id (tracer s)) c "Grpc Client Call" spanContext;
     SetTag c SAMPLING_PRIORITY (TagNum 1);
     SetTag c SPAN_KIND SPAN_KIND_RPC_CLIENT;
     SetTag c COMPONENT (TagStr "cookie-cutter-grpc");
     SetTag c RpcCall (TagStr (path method));
     SetTag c RpcHost (TagStr (endpoint config));
     SetTag c RpcFlavor (TagStr "grpc")]
    ++ (if is_ready key s then []
        else [WaitForReady c (date_now s + t1.1 + connectionTimeout config)])
    ++ [Inject (tracer_id (tracer s)) c;
        MakeServerStreamRequest c method request
          (Metadata_of (tracer_inject (tracer s) c)) {| deadline := None |}].
Proof.
  intros Hk Hq Hp c s'. subst c s'. unfold stream_opening.
  pose proof (install_stream key method Hk Hq Hp) as Hw.
  unfold is_ready. destruct (default false (ready s !! key)) eqn:Hr; cbn [app].
  - turn. rewrite Hw. mstep. turn. turn. rewrite Hr, Hp. mstep. turn.
    rewrite run_nil. cbn. rewrite ?insert_snoc_length.
    split; [apply lookup_snoc_length|]. by rewrite <- !app_assoc.
  - turn. rewrite Hw. mstep. turn. turn. rewrite Hr. mstep. turn. turn.
    rewrite Hp. rewrite run_nil. cbn. rewrite ?insert_snoc_length.
    split; [apply lookup_snoc_length|]. by rewrite <- !app_assoc.
Qed.

(** The effects of a call whose readiness wait fails, in order. *)
Lemma unary_unready_log (s : state) (key : string) (method : MethodDefinition)
    (request : jsval) (spanContext : SpanContext) (t1 : Z * Z) (e : Error) :
  serviceDef config !! key = Some method ->
  requestStream method = false ->
  responseStream method = false ->
  is_ready key s = false ->
  let c := length (calls s) in
  let s' := run config (unary_unready key request spanContext c t1 e) s in
  since s s' =
    [MetricsIncrement (metrics s) RequestSent
       [("path", path method); ("endpoint", endpoint config)];
     StartSpan (tracer_id (tracer s)) c "Grpc Client Call" spanContext;
     SetTag c SAMPLING_PRIORITY (TagNum 1);
     SetTag c SPAN_KIND SPAN_KIND_RPC_CLIENT;
     SetTag c COMPONENT (TagStr "cookie-cutter-grpc");
     SetTag c RpcCall (TagStr (path method));
     SetTag c RpcHost (TagStr (endpoint config));
     SetTag c RpcFlavor (TagStr "grpc");
     WaitForReady c (date_now s + connectionTimeout config);
     FailSpan c e;
     FinishSpan c;
     Settle c (RejectedWith e)].
Proof.
  intros Hk Hq Hp Hr c s'. subst c s'. unfold unary_unready.
  pose proof (install_unary key method Hk Hq Hp) as Hw. unfold is_ready in Hr.
  turn. rewrite Hw. mstep. rewrite Hr. mstep. turn. turn.
  read_log. reflexivity.
Qed.

Lemma stream_unready_log (s : state) (key : string) (method : MethodDefinition)
    (request : jsval) (spanContext : SpanContext) (t1 t2 : Z * Z) (e : Error) :
  serviceDef config !! key = Some method ->
  requestStream method = false ->
  responseStream method = true ->
  is_ready key s = false ->
  let c := length (calls s) in
  let s' := run config (stream_unready key request spanContext c t1 t2 e) s in
  since s s' =
    [MetricsIncrement (metrics s) RequestSent
       [("path", path method); ("endpoint", endpoint config)];
     StartSpan (tracer_id (tracer s)) c "Grpc Client Call" spanContext;
     SetTag c SAMPLING_PRIORITY (TagNum 1);
     SetTag c SPAN_KIND SPAN_KIND_RPC_CLIENT;
     SetTag c COMPONENT (TagStr "cookie-cutter-grpc");
     SetTag c RpcCall (TagStr (path method));
     SetTag c RpcHost (TagStr (endpoint config));
     SetTag c RpcFlavor (TagStr "grpc");
     WaitForReady c (date_now s + t1.1 + connectionTimeout config);
     FailSpan c e;
     FinishSpan c;
     Settle c (IterThrow e)].
Proof.
  intros Hk Hq Hp Hr c s'. subst c s'. unfold stream_unready.
  pose proof (install_stream key method Hk Hq Hp) as Hw. unfold is_ready in Hr.
  turn. rewrite Hw. mstep. turn. turn. rewrite Hr. mstep. turn. turn.
  read_log. reflexivity.
Qed.

(** What a whole streaming call appends to the log once it is open: flow,
    the transport's last word, and what the consumer still asks for. *)
Lemma stream_call_log (s : state) (key : string) (method : MethodDefinition)
    (request : jsval) (spanContext : SpanContext) (t1 t2 : Z * Z)
    (flow rest : list event) (fin : stream_event) :
  serviceDef config !! key = Some method ->
  requestStream method = false ->
  responseStream method = true ->
  let c := length (calls s) in
  Forall (flowing c) flow ->
  Forall (consuming c) rest ->
  terminal_event fin ->
  let opening := stream_opening s key request spanContext c t1 t2 in
  let s1 := run config opening s in
  let s' := run config (opening ++ flow ++ [StreamEvent c fin] ++ rest) s in
  exists L,
    log s' = log s1 ++ L /\
    settlements c L
    = handed (chunks_of flow) (outcome_of_event fin) (1 + nexts flow + nexts rest) /\
    spans_started L = [] /\
    spans_finished L = [c] /\
    increments RequestSent L = [] /\
    length (increments RequestProcessed L) = 1 /\
    length (timings L) = 1.
Proof.
  intros Hk Hq Hp c Hflow Hrest Hfin opening s1 s'. subst s'.
  destruct (stream_opening_run s key method request spanContext t1 t2 Hk Hq Hp)
    as (Hc1 & _). fold c opening s1 in Hc1.
  rewrite !run_app. fold s1.
  destruct (flowing_run c key method c _ flow s1 1 [] Hflow Hc1) as (Hc2 & XA & HlA & HhA).
  cbn [app handed] in Hc2, HhA.
  set (s2 := run config flow s1) in *.
  destruct fin as [v| |e|]; cbn in Hfin; try done.
  - destruct (end_turn c key method c _ s2 _ _ Hc2) as (Hc3 & XB & HlB & HhB).
    rewrite run_cons, run_nil.
    set (s3 := exec (step config (StreamEvent c End)) s2) in *.
    destruct (consuming_run c key method c _ rest s3 _ _ _ Hrest Hc3) as (XC & HlC & HhC).
    cbn [outcome_of] in HhC.
    eexists. split.
    { rewrite HlC, HlB, HlA. rewrite <- !app_assoc. reflexivity. }
    rewrite !settlements_app, !settlements_Settle.
    split.
    { cbn [outcome_of_event]. rewrite HhC, HhB, HhA. cbn. by rewrite <- app_assoc. }
    views. repeat split.
  - destruct (error_turn c key method c _ s2 _ _ e Hc2) as (Hc3 & XB & HlB & HhB).
    rewrite run_cons, run_nil.
    set (s3 := exec (step config (StreamEvent c (Error_event e))) s2) in *.
    destruct (consuming_run c key method c _ rest s3 _ _ _ Hrest Hc3) as (XC & HlC & HhC).
    cbn [outcome_of] in HhC.
    eexists. split.
    { rewrite HlC, HlB, HlA. rewrite <- !app_assoc. reflexivity. }
    rewrite !settlements_app, !settlements_Settle.
    split.
    { cbn [outcome_of_event]. rewrite HhC, HhB, HhA. cbn. by rewrite <- app_assoc. }
    views. repeat split.
Qed.

Lemma stream_opening_views (s : state) (key : string) (method : MethodDefinition)
    (request : jsval) (spanContext : SpanContext) (t1 t2 : Z * Z) :
  serviceDef config !! key = Some method ->
  requestStream method = false ->
  responseStream method = true ->
  let c := length (calls s) in
  let s1 := run config (stream_opening s key request spanContext c t1 t2) s in
  exists d0,
    log s1 = log s ++ d0 /\
    settlements c d0 = [] /\
    spans_started d0 = [c] /\
    spans_finished d0 = [] /\
    length (increments RequestSent d0) = 1 /\
    increments RequestProcessed d0 = [] /\
    timings d0 = [] /\
    stream_deadlines d0 = [None].
Proof.
  intros Hk Hq Hp c s1.
  destruct (stream_opening_run s key method request spanContext t1 t2 Hk Hq Hp)
    as (_ & Hl). fold c s1 in Hl.
  eexists. split; [exact Hl|].
  destruct (is_ready key s); cbn; repeat split.
Qed.

(** C5. One streaming call, from its invocation on.  Whatever the
    interleaving of the transport's ["data"] events with the consumer's
    requests, the consumer is handed the chunks in the order of their
    delivery; while the stream is open nothing else is handed out, and the
    transport's last word (the end of the sequence after ["end"], the
    transport's error after ["error"]) comes after every chunk.  The last two
    parts spell out [handed]. *)
Theorem stream_values_in_order (s : state) (key : string) (method : MethodDefinition)
    (request : jsval) (spanContext : SpanContext) (t1 t2 : Z * Z)
    (flow rest : list event) :
  serviceDef config !! key = Some method ->
  requestStream method = false ->
  responseStream method = true ->
  let c := length (calls s) in
  Forall (flowing c) flow ->
  Forall (consuming c) rest ->
  let opening := stream_opening s key request spanContext c t1 t2 in
  let chunks := chunks_of flow in
  settlements c (since s (run config (opening ++ flow) s))
  = handed chunks None (1 + nexts flow) /\
  (forall fin, terminal_event fin ->
     settlements c (since s (run config (opening ++ flow ++ [StreamEvent c fin] ++ rest) s))
     = handed chunks (outcome_of_event fin) (1 + nexts flow + nexts rest)) /\
  (forall outcome n, n ≤ length chunks ->
     handed chunks outcome n = IterValue <$> take n chunks) /\
  (forall r n, length chunks < n ->
     handed chunks (Some r) n
     = (IterValue <$> chunks) ++ r :: repeat IterDone (n - S (length chunks))).
Proof.
  intros Hk Hq Hp c Hflow Hrest opening chunks. subst chunks.
  destruct (stream_opening_views s key method request spanContext t1 t2 Hk Hq Hp)
    as (d0 & Hl0 & Hs0 & _).
  fold c opening in Hl0, Hs0.
  split; [|split; [|split]].
  - destruct (stream_opening_run s key method request spanContext t1 t2 Hk Hq Hp)
      as (Hc1 & _). fold c opening in Hc1.
    destruct (flowing_run c key method c _ flow _ 1 [] Hflow Hc1) as (_ & XA & HlA & HhA).
    cbn [app handed] in HhA. rewrite run_app.
    erewrite since_app by (rewrite HlA, Hl0, <- app_assoc; reflexivity).
    rewrite settlements_app, settlements_Settle, Hs0. by rewrite HhA.
  - intros fin Hfin.
    destruct (stream_call_log s key method request spanContext t1 t2 flow rest fin
                Hk Hq Hp Hflow Hrest Hfin) as (L & HlL & HsL & _).
    fold c opening in HlL, HsL.
    erewrite since_app by (rewrite HlL, Hl0, <- app_assoc; reflexivity).
    rewrite settlements_app, Hs0. exact HsL.
  - intros outcome n. apply handed_values.
  - intros r n. apply handed_outcome.
Qed.

Lemma uninstrumented_nil : uninstrumented [].
Proof. by repeat split. Qed.

Lemma uninstrumented_app d1 d2 :
  uninstrumented d1 -> uninstrumented d2 -> uninstrumented (d1 ++ d2).
Proof.
  unfold uninstrumented, spans_started, spans_failed, spans_finished, increments, timings.
  intros (A1 & A2 & A3 & A4 & A5 & A6) (B1 & B2 & B3 & B4 & B5 & B6).
  rewrite !omap_app, A1, A2, A3, A4, A5, A6, B1, B2, B3, B4, B5, B6.
  by repeat split.
Qed.

(** One turn around a sequence whose body is not running. *)
Lemma unconsumed_turn (s : state) (c : nat) (cl : call) (ev : event) :
  calls s !! c = Some cl ->
  body_at_rest cl ->
  unconsumed c ev ->
  let s' := exec (step config ev) s in
  (exists cl', calls s' !! c = Some cl' /\ body_at_rest cl') /\
  exists d, log s' = log s ++ d /\ uninstrumented d.
Proof.
  intros Hc Hcl Hev s'. subst s'.
  pose proof (lookup_lt_Some _ _ _ Hc) as Hlen.
  destruct cl as [| | | | k m [rq sc|rq sp st| | |rq sp st b|b] [|n] [w|]]; cbn in Hcl; try done;
    (destruct ev as [k0 rq0 sc0 | c0 | c0 | c0 err | c0 err v | c0 sev | ctx | | ms us];
     cbn in Hev; try done; try subst c0);
    mstep; rewrite ?Hc; mstep.
  all: split;
    [ eexists; split; [first [apply list_lookup_insert_eq; exact Hlen | exact Hc | reflexivity]|exact I]
    | ].
  all: first
    [ exists []; split; [by rewrite app_nil_r|apply uninstrumented_nil]
    | exists [Settle c IterDone]; by repeat split
    | exists ((StreamCancel <$> pendingStreams s) ++ [ClientClose]);
      split; [by rewrite <- app_assoc|];
      apply uninstrumented_app; [|by repeat split];
      unfold uninstrumented, spans_started, spans_failed, spans_finished, increments, timings;
      rewrite !omap_StreamCancel_None by done; by repeat split ].
Qed.

Lemma unconsumed_run (evs : list event) (s : state) (c : nat) (cl : call) :
  calls s !! c = Some cl ->
  body_at_rest cl ->
  Forall (unconsumed c) evs ->
  exists d, log (run config evs s) = log s ++ d /\ uninstrumented d.
Proof.
  intros Hc Hcl Hevs. revert s cl Hc Hcl.
  induction Hevs as [|ev evs Hev _ IH]; intros s cl Hc Hcl.
  - rewrite run_nil. exists []. split; [by rewrite app_nil_r|apply uninstrumented_nil].
  - rewrite run_cons.
    destruct (unconsumed_turn s c cl ev Hc Hcl Hev) as ((cl1 & Hc1 & Hcl1) & d1 & Hl1 & Hd1).
    destruct (IH _ cl1 Hc1 Hcl1) as (d2 & Hl2 & Hd2).
    exists (d1 ++ d2). split; [by rewrite Hl2, Hl1, <- app_assoc|].
    by apply uninstrumented_app.
Qed.

(** C2 (as amended). A unary call that the transport answers, and a
    streaming call that is consumed and on which the transport signals its
    end or its error, produce one span, finished once, one [request_sent]
    increment, one [request_processed] increment and one timing sample.  A
    call whose readiness wait fails produces one span, marked failed and
    finished once, and one [request_sent] increment, and neither a
    [request_processed] increment nor a timing sample.  A streaming call
    whose sequence is never asked for a value produces none of these,
    whatever else happens to it: no span, no increment, no timing sample. *)
Theorem instrumentation_per_call (s : state) (key : string) (method : MethodDefinition)
    (request : jsval) (spanContext : SpanContext) (t1 t2 : Z * Z) :
  serviceDef config !! key = Some method ->
  requestStream method = false ->
  let c := length (calls s) in
  (responseStream method = false ->
   forall error value,
     instrumented c
       (since s (run config (unary_exchange s key request spanContext c t1 t2 error value) s))) /\
  (responseStream method = true ->
   forall flow rest fin,
     Forall (flowing c) flow -> Forall (consuming c) rest -> terminal_event fin ->
     instrumented c
       (since s (run config (stream_opening s key request spanContext c t1 t2
                             ++ flow ++ [StreamEvent c fin] ++ rest) s))) /\
  (responseStream method = false -> is_ready key s = false ->
   forall e,
     instrumented_unready c e
       (since s (run config (unary_unready key request spanContext c t1 e) s))) /\
  (responseStream method = true -> is_ready key s = false ->
   forall e,
     instrumented_unready c e
       (since s (run config (stream_unready key request spanContext c t1 t2 e) s))) /\
  (responseStream method = true ->
   forall evs,
     Forall (unconsumed c) evs ->
     uninstrumented (since s (run config (Invoke key request spanContext :: evs) s))).
Proof.
  intros Hk Hq c. split; [|split; [|split; [|split]]].
  - intros Hp error value. subst c.
    rewrite (unary_exchange_log s key method request spanContext t1 t2 error value Hk Hq Hp).
    unfold instrumented.
    destruct (is_ready key s), error; views; repeat split.
  - intros Hp flow rest fin Hflow Hrest Hfin.
    destruct (stream_opening_views s key method request spanContext t1 t2 Hk Hq Hp)
      as (d0 & Hl0 & _ & H1 & H2 & H3 & H4 & H5 & _).
    destruct (stream_call_log s key method request spanContext t1 t2 flow rest fin
                Hk Hq Hp Hflow Hrest Hfin) as (L & HlL & _ & G1 & G2 & G3 & G4 & G5).
    fold c in Hl0, H1, H2, H3, H4, H5, HlL, G1, G2, G3, G4, G5.
    erewrite since_app by (rewrite HlL, Hl0, <- app_assoc; reflexivity).
    unfold instrumented, spans_started, spans_finished, increments, timings in *.
    rewrite !omap_app, !length_app, H1, H2, H3, H4, H5, G1, G2, G3, G4, G5.
    repeat split.
  - intros Hp Hr e. subst c.
    rewrite (unary_unready_log s key method request spanContext t1 e Hk Hq Hp Hr).
    unfold instrumented_unready. views. repeat split.
  - intros Hp Hr e. subst c.
    rewrite (stream_unready_log s key method request spanContext t1 t2 e Hk Hq Hp Hr).
    unfold instrumented_unready. views. repeat split.
  - intros Hp evs Hevs. rewrite run_cons.
    assert (Hs' : exec (step config (Invoke key request spanContext)) s
                  = set_calls
                      (fun l => l ++ [Streaming key method
                                        (GenSuspendedStart request spanContext) 0 None]) s).
    { mstep. rewrite (install_stream key method Hk Hq Hp). by mstep. }
    rewrite Hs'.
    destruct (unconsumed_run evs
                (set_calls
                   (fun l => l ++ [Streaming key method
                                     (GenSuspendedStart request spanContext) 0 None]) s) c
                (Streaming key method (GenSuspendedStart request spanContext) 0 None))
      as (d & Hd & Hu); [apply lookup_snoc_length|exact I|exact Hevs|].
    by rewrite (since_app s _ d Hd).
Qed.

(** C8. Every unary call hands its request to the transport with the
    deadline [Date.now() + requestTimeout], the clock being read when the
    request is handed over: in the turn of the invocation if the connection
    was known to be ready, else in the turn of the readiness callback, [t1]
    later.  Every streaming call hands its request to the transport with no
    deadline.  Each call hands over exactly one request.  And whatever the
    turn, in every state the proxy can reach, a unary request handed over in
    that turn carries the deadline read off the clock of that turn, and a
    streaming request carries none. *)
Theorem request_deadlines (s : state) (key : string) (method : MethodDefinition)
    (request : jsval) (spanContext : SpanContext) (t1 t2 : Z * Z) :
  serviceDef config !! key = Some method ->
  requestStream method = false ->
  let c := length (calls s) in
  (responseStream method = false ->
   forall error value,
     unary_deadlines
       (since s (run config (unary_exchange s key request spanContext c t1 t2 error value) s))
     = [Some ((if is_ready key s then date_now s else date_now s + t1.1)
              + requestTimeout config)%Z] /\
     stream_deadlines
       (since s (run config (unary_exchange s key request spanContext c t1 t2 error value) s))
     = []) /\
  (responseStream method = true ->
   stream_deadlines
     (since s (run config (stream_opening s key request spanContext c t1 t2) s))
   = [None] /\
   unary_deadlines
     (since s (run config (stream_opening s key request spanContext c t1 t2) s))
   = []) /\
  (forall s0 ev,
     reachable config s0 ->
     Forall (eq (Some (date_now s0 + requestTimeout config)%Z))
       (unary_deadlines (since s0 (exec (step config ev) s0))) /\
     Forall (eq None) (stream_deadlines (since s0 (exec (step config ev) s0)))).
Proof.
  intros Hk Hq c. split; [|split].
  - intros Hp error value. subst c.
    rewrite (unary_exchange_log s key method request spanContext t1 t2 error value Hk Hq Hp).
    destruct (is_ready key s), error; views; by split.
  - intros Hp.
    destruct (stream_opening_run s key method request spanContext t1 t2 Hk Hq Hp)
      as (_ & Hl). fold c in Hl.
    rewrite (since_app s _ _ Hl).
    destruct (is_ready key s); views; by split.
  - intros s0 ev Hs0. apply step_deadlines. by apply reachable_calls_ok.
Qed.

End Claims.

(** * Concrete runs *)

(** The invocation of [Upload], a request-stream method, on a fresh proxy. *)
Lemma request_stream_unsupported_witness :
  calls (exec (step Demo.config (Invoke "Upload" (VStr "hi") "ctx")) Demo.fresh)
  = [Threw client_streams_unsupported] /\
  log (exec (step Demo.config (Invoke "Upload" (VStr "hi") "ctx")) Demo.fresh) = [].
Proof.
  destruct (request_stream_unsupported Demo.config Demo.fresh "Upload" Demo.Upload
              (VStr "hi") "ctx") as (H1 & H2 & _).
  - vm_compute. reflexivity.
  - reflexivity.
  - split; [exact H1 | exact H2].
Defined.

(** [Feed] is invoked on a fresh proxy: nothing happens before the first
    [next()]. *)
Lemma streaming_call_is_lazy_witness :
  log (exec (step Demo.config (Invoke "Feed" (VStr "hi") "ctx")) Demo.fresh) = [] /\
  pendingStreams (exec (step Demo.config (Invoke "Feed" (VStr "hi") "ctx")) Demo.fresh) = [].
Proof.
  destruct (streaming_call_is_lazy Demo.config Demo.fresh "Feed" Demo.Feed
              (VStr "hi") "ctx") as (H1 & H2 & _).
  - vm_compute. reflexivity.
  - reflexivity.
  - reflexivity.
  - split; [exact H1 | exact H2].
Defined.

(** [Echo] answers ["hello"]. *)
Lemma unary_success_witness :
  settlements 0
    (since Demo.fresh
       (run Demo.config
          [Invoke "Echo" (VStr "hi") "ctx"; Tick 5 5000; ReadyCallback 0 None;
           Tick 7 7400; UnaryCallback 0 None (VStr "hello")]
          Demo.fresh))
  = [Fulfilled (VStr "hello")].
Proof.
  destruct (unary_success Demo.config Demo.fresh "Echo" Demo.Echo (VStr "hi") "ctx"
              (5, 5000)%Z (7, 7400)%Z (VStr "hello")) as (H & _).
  - vm_compute. reflexivity.
  - reflexivity.
  - reflexivity.
  - exact H.
Defined.

(** [Echo] fails with [unavailable]. *)
Lemma unary_failure_witness :
  settlements 0
    (since Demo.fresh
       (run Demo.config
          [Invoke "Echo" (VStr "hi") "ctx"; Tick 5 5000; ReadyCallback 0 None;
           Tick 7 7400; UnaryCallback 0 (Some Demo.unavailable) VUndefined]
          Demo.fresh))
  = [RejectedWith Demo.unavailable].
Proof.
  destruct (unary_failure Demo.config Demo.fresh "Echo" Demo.Echo (VStr "hi") "ctx"
              (5, 5000)%Z (7, 7400)%Z Demo.unavailable VUndefined) as (H & _).
  - vm_compute. reflexivity.
  - reflexivity.
  - reflexivity.
  - exact H.
Defined.

(** After [Echo] observed the connection become ready, [Echo] is ready for
    good. *)
Lemma readiness_is_per_method_witness :
  is_ready "Echo"
    (run Demo.config [Invoke "Ping" VNull "ctx"; Dispose]
       (exec (step Demo.config (ReadyCallback 0 None)) Demo.echo_waiting))
  = true.
Proof.
  destruct (readiness_is_per_method Demo.config Demo.echo_waiting 0
              (UnaryAwaitingReady "Echo" Demo.Echo (VStr "hi") 0 5000) "Echo"
              [Invoke "Ping" VNull "ctx"; Dispose]) as (_ & H & _).
  - vm_compute. reflexivity.
  - reflexivity.
  - exact H.
Defined.

(** C1, as stated, fails: on one proxy, [Echo] has observed the connection
    become ready, and the next call, on [Ping], waits for readiness
    again. *)
Lemma readiness_not_shared_across_methods :
  is_ready "Echo" Demo.echo_ready = true /\
  waits (since Demo.echo_ready
           (exec (step Demo.config (Invoke "Ping" VNull "ctx")) Demo.echo_ready))
  = [1].
Proof. vm_compute. split; reflexivity. Qed.

(** The instrumentation of the calls of the demo: [Feed] consumed to its
    end, and [Feed] dropped without having been asked for a value. *)
Lemma instrumentation_per_call_witness :
  instrumented 0
    (since Demo.fresh
       (run Demo.config
          (stream_opening Demo.fresh "Feed" (VStr "hi") "ctx" 0 (1, 1000)%Z (2, 2000)%Z
           ++ Demo.feed_flow ++ [StreamEvent 0 End] ++ [Next 0])
          Demo.fresh)) /\
  uninstrumented
    (since Demo.fresh
       (run Demo.config
          [Invoke "Feed" (VStr "hi") "ctx"; Tick 5 5000; Return 0; Dispose]
          Demo.fresh)).
Proof.
  destruct (instrumentation_per_call Demo.config Demo.fresh "Feed" Demo.Feed
              (VStr "hi") "ctx" (1, 1000)%Z (2, 2000)%Z) as (_ & H & _ & _ & H').
  - vm_compute. reflexivity.
  - reflexivity.
  - split.
    + apply (H eq_refl Demo.feed_flow [Next 0] End).
      * repeat constructor.
      * repeat constructor.
      * exact I.
    + apply (H' eq_refl [Tick 5 5000; Return 0; Dispose]).
      repeat constructor.
Defined.

(** C2, as stated, fails: the readiness wait of a call on [Echo] fails; the
    call is over, rejected, and no [request_processed] increment and no
    timing sample were emitted.  And a call on [Feed] whose sequence is never
    asked for a value has no instrumentation at all. *)
Lemma unready_call_not_processed :
  settlements 0 (since Demo.fresh Demo.echo_unready) = [RejectedWith Demo.unavailable] /\
  increments RequestProcessed (since Demo.fresh Demo.echo_unready) = [] /\
  timings (since Demo.fresh Demo.echo_unready) = [] /\
  ~ instrumented 0 (since Demo.fresh Demo.echo_unready) /\
  since Demo.fresh Demo.feed_untouched = [] /\
  ~ instrumented 0 (since Demo.fresh Demo.feed_untouched).
Proof.
  repeat split; try (vm_compute; reflexivity).
  - intros (_ & _ & _ & H & _). vm_compute in H. discriminate.
  - intros (H & _). vm_compute in H. discriminate.
Qed.

(** Disposal with one stream pending. *)
Lemma dispose_cancels_and_closes_witness :
  since Demo.feed_open (exec (step Demo.config Dispose) Demo.feed_open)
  = [StreamCancel 0; ClientClose] /\
  0 ∉ pendingStreams
        (exec (step Demo.config (StreamEvent 0 Close))
           (exec (step Demo.config Dispose) Demo.feed_open)).
Proof.
  destruct (dispose_cancels_and_closes Demo.config Demo.feed_open) as (H1 & _ & _ & H2).
  split.
  - exact H1.
  - apply (H2 0 "Feed" Demo.Feed GenDelegating 1
             {| w_pipe := new_AsyncPipe; w_span := 0; w_startTime := 6000 |}).
    vm_compute. reflexivity.
Defined.

(** C4, as stated, fails: a stream is pending; after [dispose()] it has been
    sent its cancellation, the connection is closed, and the registry still
    holds it. *)
Lemma dispose_keeps_registry :
  pendingStreams Demo.feed_open = [0] /\
  since Demo.feed_open (exec (step Demo.config Dispose) Demo.feed_open)
  = [StreamCancel 0; ClientClose] /\
  pendingStreams (exec (step Demo.config Dispose) Demo.feed_open) = [0].
Proof. vm_compute. repeat split; reflexivity. Qed.

(** The scenario of the spec: [Feed] emits three chunks and ends. *)
Lemma stream_values_in_order_witness :
  settlements 0
    (since Demo.fresh
       (run Demo.config
          (stream_opening Demo.fresh "Feed" (VStr "hi") "ctx" 0 (1, 1000)%Z (2, 2000)%Z
           ++ Demo.feed_flow ++ [StreamEvent 0 End] ++ [Next 0; Next 0])
          Demo.fresh))
  = [IterValue (VNum 1); IterValue (VNum 2); IterValue (VNum 3); IterDone; IterDone; IterDone].
Proof.
  destruct (stream_values_in_order Demo.config Demo.fresh "Feed" Demo.Feed
              (VStr "hi") "ctx" (1, 1000)%Z (2, 2000)%Z Demo.feed_flow [Next 0; Next 0])
    as (_ & H & _).
  - vm_compute. reflexivity.
  - reflexivity.
  - reflexivity.
  - repeat constructor.
  - repeat constructor.
  - exact (H End I).
Defined.

(** The consumer gave up; the chunk that arrives afterwards is dropped. *)
Lemma late_chunk_discarded_witness :
  exec (step Demo.config (StreamEvent 0 (Data (VNum 2)))) Demo.feed_abandoned
  = Demo.feed_abandoned.
Proof.
  apply (late_chunk_discarded Demo.config Demo.feed_abandoned 0 "Feed" Demo.Feed
           GenCompleted 0
           {| w_pipe := {| queue := []; term := TClosed |}; w_span := 0;
              w_startTime := 6000 |}).
  - vm_compute. reflexivity.
  - discriminate.
Defined.

(** The request of [Echo] leaves when the connection is ready, 5 ms after
    the invocation at 100: its deadline is 105 + 2000.  The request of [Feed]
    has no deadline. *)
Lemma request_deadlines_witness :
  unary_deadlines
    (since Demo.fresh
       (run Demo.config
          (unary_exchange Demo.fresh "Echo" (VStr "hi") "ctx" 0 (5, 5000)%Z (7, 7000)%Z
             None (VStr "HI"))
          Demo.fresh))
  = [Some 2105%Z] /\
  stream_deadlines
    (since Demo.fresh
       (run Demo.config
          (stream_opening Demo.fresh "Feed" (VStr "hi") "ctx" 0 (1, 1000)%Z (2, 2000)%Z)
          Demo.fresh))
  = [None].
Proof.
  split.
  - destruct (request_deadlines Demo.config Demo.fresh "Echo" Demo.Echo
                (VStr "hi") "ctx" (5, 5000)%Z (7, 7000)%Z) as (H & _).
    + vm_compute. reflexivity.
    + reflexivity.
    + exact (proj1 (H eq_refl None (VStr "HI"))).
  - destruct (request_deadlines Demo.config Demo.fresh "Feed" Demo.Feed
                (VStr "hi") "ctx" (1, 1000)%Z (2, 2000)%Z) as (_ & H & _).
    + vm_compute. reflexivity.
    + reflexivity.
    + exact (proj1 (H eq_refl)).
Defined.

Example echo_deadline :
  unary_deadlines
    (since (exec (step Demo.config (Tick 5 5000)) Demo.echo_waiting)
       (exec (step Demo.config (ReadyCallback 0 None))
          (exec (step Demo.config (Tick 5 5000)) Demo.echo_waiting)))
  = [Some 2105%Z].
Proof. vm_compute. reflexivity. Qed.

Example feed_deadline :
  stream_deadlines (since Demo.fresh Demo.feed_open) = [None].
Proof. vm_compute. reflexivity. Qed.

(** A [return()] made while a [next()] is outstanding waits for it: the
    consumer is handed the chunk that arrives and then the end of the
    sequence; the generator is over and the bridge closed, and the stream is
    still registered. *)
Example queued_return_ends_sequence :
  let s := run Demo.config [Return 0; Tick 1 1000; StreamEvent 0 (Data (VNum 1))]
             Demo.feed_open in
  since Demo.feed_open (run Demo.config [Return 0] Demo.feed_open) = [] /\
  since Demo.feed_open s = [Settle 0 (IterValue (VNum 1)); Settle 0 IterDone] /\
  calls s !! 0
  = Some (Streaming "Feed" Demo.Feed GenCompleted 0
            (Some {| w_pipe := {| queue := []; term := TClosed |}; w_span := 0;
                     w_startTime := 6000 |})) /\
  pendingStreams s = [0].
Proof. vm_compute. repeat split; reflexivity. Qed.

(** The same while the body still waits for the connection, and the wait
    fails: the first request is rejected, the [return()] and the request
    behind it complete with the end of the sequence. *)
Example queued_return_after_failed_wait :
  settlements 0
    (since Demo.fresh
       (run Demo.config
          [Invoke "Feed" (VStr "hi") "ctx"; Next 0; Return 0; Next 0;
           ReadyCallback 0 (Some Demo.unavailable)]
          Demo.fresh))
  = [IterThrow Demo.unavailable; IterDone; IterDone].
Proof. vm_compute. reflexivity. Qed.

(** * Further properties of the proxy *)

Lemma settlements_Settle_ne c c' rs : c ≠ c' -> settlements c' (Settle c <$> rs) = [].
Proof.
  intros Hne. apply omap_Settle_None. intros r. cbn. by rewrite decide_False.
Qed.

Lemma elem_of_Set_add (x c : nat) (l : list nat) : x ∈ Set_add c l <-> x = c \/ x ∈ l.
Proof.
  unfold Set_add. case_decide as H.
  - split; [by right|]. intros [->|?]; done.
  - rewrite elem_of_app, list_elem_of_singleton. tauto.
Qed.

Lemma elem_of_Set_delete (x c : nat) (l : list nat) : x ∈ Set_delete c l <-> x ≠ c /\ x ∈ l.
Proof. unfold Set_delete. by rewrite list_elem_of_filter. Qed.

Lemma NoDup_Set_add (c : nat) (l : list nat) : NoDup l -> NoDup (Set_add c l).
Proof.
  intros H. unfold Set_add. case_decide as Hin; [done|].
  apply NoDup_app. split; [done|]. split; [|apply NoDup_singleton].
  intros x Hx Hc. apply list_elem_of_singleton in Hc. by subst.
Qed.

Lemma NoDup_Set_delete (c : nat) (l : list nat) : NoDup l -> NoDup (Set_delete c l).
Proof. intros H. unfold Set_delete. by apply NoDup_filter. Qed.

Lemma Set_delete_add_fresh (c : nat) (l : list nat) :
  c ∉ l -> Set_delete c (Set_add c l) = l.
Proof.
  intros H. unfold Set_add, Set_delete. rewrite decide_False by done.
  rewrite filter_app. cbn. rewrite decide_False by (intros E; by apply E).
  rewrite app_nil_r. induction l as [|y l IH]; [done|].
  rewrite filter_cons. rewrite decide_True.
  - f_equal. apply IH. intros E. apply H. by right.
  - intros ->. apply H. by left.
Qed.

Arguments since : simpl never.

(** Views of the log, the new ones included. *)
Ltac xviews :=
  unfold wait_deadlines, metric_sinks, tracers_used, cancels, unary_requests,
    stream_requests, span_starts, span_tags, timing_tags;
  views;
  rewrite ?omap_StreamCancel_None by (intros ?; reflexivity); cbn.

Section Further.

Variable config : Config.

(** X2. In every state and for every turn of the event loop: a readiness
    wait started in that turn is given the deadline
    [Date.now() + connectionTimeout], the clock being read in that turn. *)
Theorem wait_deadline_from_clock (s : state) (ev : event) :
  Forall (eq (date_now s + connectionTimeout config)%Z)
    (wait_deadlines (since s (exec (step config ev) s))).
Proof.
  destruct ev; mcases; read_log; xviews; by repeat constructor.
Qed.

Lemma step_keeps_context (ev : event) (s : state) :
  (forall context, ev ≠ Initialize context) ->
  metrics (exec (step config ev) s) = metrics s /\
  tracer (exec (step config ev) s) = tracer s.
Proof.
  intros H. destruct ev; mcases; try done. by destruct (H context).
Qed.

Lemma run_keeps_context (evs : list event) (s : state) :
  Forall (fun ev => forall context, ev ≠ Initialize context) evs ->
  metrics (run config evs s) = metrics s /\
  tracer (run config evs s) = tracer s.
Proof.
  intros H. revert s. induction H as [|ev evs Hev _ IH]; intros s; [done|].
  rewrite run_cons. destruct (IH (exec (step config ev) s)) as [-> ->].
  by apply step_keeps_context.
Qed.

Lemma step_uses_current_context (ev : event) (s : state) :
  Forall (eq (metrics s)) (metric_sinks (since s (exec (step config ev) s))) /\
  Forall (eq (tracer_id (tracer s))) (tracers_used (since s (exec (step config ev) s))).
Proof.
  destruct ev; mcases; read_log; xviews; by repeat constructor.
Qed.

(** X3. The tracer and the metrics sink are looked up when they are used.
    After [initialize(context)], and until the next [initialize], every
    metric goes to [context.metrics] and every span is started, and every
    trace context injected, by [context.tracer] -- also for the calls that
    were already in flight when [initialize] was called. *)
Theorem initialize_rebinds_instrumentation (s : state) (context : IComponentContext)
    (evs : list event) (ev : event) :
  Forall (fun ev => forall context', ev ≠ Initialize context') evs ->
  let s' := run config evs (exec (step config (Initialize context)) s) in
  Forall (eq (ctx_metrics context)) (metric_sinks (since s' (exec (step config ev) s'))) /\
  Forall (eq (tracer_id (ctx_tracer context)))
    (tracers_used (since s' (exec (step config ev) s'))).
Proof.
  intros Hevs s'.
  destruct (run_keeps_context evs (exec (step config (Initialize context)) s) Hevs)
    as [Hm Ht]. fold s' in Hm, Ht.
  destruct (step_uses_current_context ev s') as [H1 H2].
  rewrite Hm in H1. rewrite Ht in H2. done.
Qed.

(** X4. The handler of ["error"] does not look at the state of the call:
    on a stream that exists, whatever the bridge and the consumer have come
    to (the stream may have ended or failed before, the consumer may have
    given up), every ["error"] event emits a [request_processed] increment
    with [result=error] and a timing sample, marks the span failed and
    finishes it. *)
Theorem error_event_always_counted (s : state) (c : nat) (key : string)
    (method : MethodDefinition) (phase : gen_phase) (demand : nat) (w : wiring)
    (e : Error) :
  calls s !! c = Some (Streaming key method phase demand (Some w)) ->
  exists X,
    since s (exec (step config (StreamEvent c (Error_event e))) s)
    = [MetricsIncrement (metrics s) RequestProcessed
         [("path", path method); ("result", "error"); ("endpoint", endpoint config)];
       MetricsTiming (metrics s) RequestProcessingTime
         (Math_round (perf_now s - w_startTime w))
         [("path", path method); ("endpoint", endpoint config)];
       FailSpan (w_span w) e;
       FinishSpan (w_span w)]
      ++ (Settle c <$> X).
Proof.
  intros Hc. mstep. rewrite Hc.
  destruct phase; mstep; eexists; read_log;
    first [reflexivity | instantiate (1 := []); reflexivity].
Qed.

(** X5. A consumer that gives up on an open stream is answered with the
    end of the sequence, and that is all: the stream is not cancelled at the
    transport, no metric is emitted, the span is not finished, and the stream
    stays in the registry. *)
Theorem abandoned_stream_not_cancelled (s : state) (c : nat) (key : string)
    (method : MethodDefinition) (w : wiring) :
  calls s !! c = Some (Streaming key method GenDelegating 0 (Some w)) ->
  let s' := exec (step config (Return c)) s in
  since s s' = [Settle c IterDone] /\
  pendingStreams s' = pendingStreams s /\
  exists w', calls s' !! c = Some (Streaming key method GenCompleted 0 (Some w')) /\
             w_span w' = w_span w /\ w_startTime w' = w_startTime w.
Proof.
  intros Hc s'. subst s'. pose proof (lookup_lt_Some _ _ _ Hc) as Hlen.
  mstep. rewrite Hc. mstep. split; [by read_log|]. split; [done|].
  eexists. split; [by apply list_lookup_insert_eq|]. done.
Qed.

(** X6. A turn addressed to one call leaves the record of every other call
    as it is and hands nothing to the caller of any other call. *)
Theorem turn_concerns_one_call (s : state) (ev : event) (c c' : nat) :
  target ev = Some c ->
  c' ≠ c ->
  calls (exec (step config ev) s) !! c' = calls s !! c' /\
  settlements c' (since s (exec (step config ev) s)) = [].
Proof.
  intros Ht Hne. split.
  - destruct ev; cbn in Ht; try done; injection Ht as ->;
      mcases; rewrite ?list_lookup_insert_ne by done; done.
  - destruct ev; cbn in Ht; try done; injection Ht as ->;
      mcases; read_log; rewrite ?settlements_app, ?settlements_Settle_ne by done;
      cbn; rewrite ?decide_False by done; try done;
      apply settlements_Settle_ne; congruence.
Qed.

(** X7. A stream leaves the registry in the turn of its own ["close"] event
    and in no other turn -- not when the transport ends or fails it, not when
    the consumer gives up, not on [dispose()] -- and it enters the registry
    only in a turn of its own call that opens it (the first [next()] of a
    ready method, or the readiness callback). *)
Theorem registry_changes_only_by_open_and_close (s : state) (ev : event) (x : nat) :
  (x ∈ pendingStreams s -> ev ≠ StreamEvent x Close ->
   x ∈ pendingStreams (exec (step config ev) s)) /\
  (x ∈ pendingStreams (exec (step config ev) s) ->
   x ∈ pendingStreams s \/ ev = Next x \/ ev = ReadyCallback x None).
Proof.
  split.
  - intros Hx Hev. destruct ev; mcases;
      rewrite ?elem_of_Set_add, ?elem_of_Set_delete; try tauto.
    split; [|done]. intros ->. by apply Hev.
  - intros Hx. destruct ev; revert Hx; mcases;
      rewrite ?elem_of_Set_add, ?elem_of_Set_delete; intros Hx;
      try tauto; destruct Hx as [->|Hx]; tauto.
Qed.

(** ** The registry in the states the proxy can reach *)

Lemma registry_ok_snoc (pending : list nat) (cs : list call) (cl : call) :
  registry_ok pending cs -> registry_ok pending (cs ++ [cl]).
Proof.
  intros [Hnd Hop]. split; [done|]. intros x Hx.
  destruct (Hop x Hx) as (cl' & Hl & Ho). exists cl'. split; [|done].
  rewrite lookup_app_l; [done|]. by eapply lookup_lt_Some.
Qed.

Lemma registry_ok_insert (pending : list nat) (cs : list call) (c : nat) (old new : call) :
  registry_ok pending cs -> cs !! c = Some old -> (opened old -> opened new) ->
  registry_ok pending (<[c := new]> cs).
Proof.
  intros [Hnd Hop] Hc Hon. split; [done|]. intros x Hx.
  destruct (Hop x Hx) as (cl' & Hl & Ho).
  destruct (decide (x = c)) as [->|Hne].
  - exists new. split; [apply list_lookup_insert_eq; by eapply lookup_lt_Some|].
    apply Hon. congruence.
  - exists cl'. by rewrite list_lookup_insert_ne.
Qed.

Lemma registry_ok_open (pending : list nat) (cs : list call) (c : nat) (old new : call) :
  registry_ok pending cs -> cs !! c = Some old -> opened new ->
  registry_ok (Set_add c pending) (<[c := new]> cs).
Proof.
  intros [Hnd Hop] Hc Hon. split; [by apply NoDup_Set_add|]. intros x Hx.
  destruct (decide (x = c)) as [->|Hne].
  - exists new. split; [apply list_lookup_insert_eq; by eapply lookup_lt_Some|done].
  - apply elem_of_Set_add in Hx as [?|Hx]; [done|].
    destruct (Hop x Hx) as (cl' & Hl & Ho).
    exists cl'. by rewrite list_lookup_insert_ne.
Qed.

Lemma registry_ok_close (pending : list nat) (cs : list call) (c : nat) :
  registry_ok pending cs -> registry_ok (Set_delete c pending) cs.
Proof.
  intros [Hnd Hop]. split; [by apply NoDup_Set_delete|]. intros x Hx.
  apply elem_of_Set_delete in Hx as [_ Hx]. by apply Hop.
Qed.

Lemma step_registry_ok (ev : event) (s : state) :
  registry_ok (pendingStreams s) (calls s) ->
  registry_ok (pendingStreams (exec (step config ev) s)) (calls (exec (step config ev) s)).
Proof.
  intros H. destruct ev; mcases; try done;
    first [ by apply registry_ok_snoc
          | by apply registry_ok_close
          | eapply registry_ok_open; [done|eassumption|]; cbn; by repeat case_match
          | eapply registry_ok_insert; [done|eassumption|]; cbn; by repeat case_match ].
Qed.

Lemma reachable_registry_ok (s : state) :
  reachable config s -> registry_ok (pendingStreams s) (calls s).
Proof.
  intros (dflt & date & perf & evs & ->).
  induction evs as [|ev evs IH] using rev_ind.
  - split; [constructor|]. intros x Hx. cbn in Hx. by apply elem_of_nil in Hx.
  - rewrite run_snoc. by apply step_registry_ok.
Qed.

(** X8. In every state the proxy can reach, the registry holds no stream
    twice and holds only streams that exist, that is, whose request was
    handed to the transport.  So [dispose()] sends one cancellation to each
    pending stream and none to anything else. *)
Theorem dispose_cancels_each_stream_once (s : state) :
  reachable config s ->
  let sent := cancels (since s (exec (step config Dispose) s)) in
  sent = pendingStreams s /\
  NoDup sent /\
  forall x, x ∈ sent -> exists cl, calls s !! x = Some cl /\ opened cl.
Proof.
  intros Hs sent. destruct (reachable_registry_ok s Hs) as [Hnd Hop].
  assert (E : sent = pendingStreams s).
  { subst sent. mstep. read_log. unfold cancels. rewrite omap_app. cbn.
    rewrite app_nil_r. clear Hnd Hop.
    induction (pendingStreams s) as [|x l IH]; [done|].
    cbn. f_equal. exact IH. }
  rewrite E. done.
Qed.

Lemma invoke_unready_waits (s : state) (key : string) (method : MethodDefinition)
    (request : jsval) (spanContext : SpanContext) :
  serviceDef config !! key = Some method ->
  requestStream method = false ->
  responseStream method = false ->
  is_ready key s = false ->
  let s' := exec (step config (Invoke key request spanContext)) s in
  waits (since s s') = [length (calls s)] /\
  unary_requests (since s s') = [] /\
  calls s' = calls s ++ [UnaryAwaitingReady key method request (length (calls s)) (perf_now s)] /\
  ready s' = ready s.
Proof.
  intros Hk Hq Hp Hr s'. subst s'. unfold is_ready in Hr.
  mstep. rewrite (install_unary config key method Hk Hq Hp). mstep. rewrite Hr. mstep.
  repeat split; read_log; reflexivity.
Qed.

Lemma next_unready_waits (s : state) (c : nat) (key : string) (method : MethodDefinition)
    (request : jsval) (spanContext : SpanContext) :
  calls s !! c = Some (Streaming key method (GenSuspendedStart request spanContext) 0 None) ->
  is_ready key s = false ->
  waits (since s (exec (step config (Next c)) s)) = [c].
Proof.
  intros Hc Hr. unfold is_ready in Hr. mstep. rewrite Hc. mstep. rewrite Hr. mstep.
  read_log. reflexivity.
Qed.

(** X9. When the readiness wait of a call fails, nothing was handed to the
    transport but the wait itself: no request is sent and no stream is
    registered; the caller gets the transport's error; the method's flag stays
    unset, and the next call on the method waits for readiness again. *)
Theorem unready_call_sends_nothing (s : state) (key : string) (method : MethodDefinition)
    (request request' : jsval) (spanContext spanContext' : SpanContext)
    (t1 t2 : Z * Z) (e : Error) :
  serviceDef config !! key = Some method ->
  requestStream method = false ->
  is_ready key s = false ->
  let c := length (calls s) in
  (responseStream method = false ->
   let s' := run config (unary_unready key request spanContext c t1 e) s in
   unary_requests (since s s') = [] /\
   settlements c (since s s') = [RejectedWith e] /\
   is_ready key s' = false /\
   waits (since s' (exec (step config (Invoke key request' spanContext')) s')) = [S c]) /\
  (responseStream method = true ->
   let s' := run config (stream_unready key request spanContext c t1 t2 e) s in
   stream_requests (since s s') = [] /\
   pendingStreams s' = pendingStreams s /\
   settlements c (since s s') = [IterThrow e] /\
   is_ready key s' = false /\
   waits (since s' (run config [Invoke key request' spanContext'; Next (S c)] s')) = [S c]).
Proof.
  intros Hk Hq Hr c. split.
  - intros Hp s'.
    assert (Hlog := unary_unready_log config s key method request spanContext t1 e
                      Hk Hq Hp Hr).
    cbn zeta in Hlog. fold c s' in Hlog.
    assert (Hs' : is_ready key s' = false /\ length (calls s') = S c).
    { subst s' c. unfold unary_unready. unfold is_ready in Hr.
      turn. rewrite (install_unary config key method Hk Hq Hp). mstep.
      rewrite Hr. mstep. turn. turn. rewrite run_nil. cbn.
      split; [exact Hr|]. rewrite ?length_insert, length_app. cbn. lia. }
    destruct Hs' as [Hr' Hlen].
    rewrite Hlog. split; [reflexivity|].
    split; [cbn; by rewrite decide_True|]. split; [exact Hr'|].
    destruct (invoke_unready_waits s' key method request' spanContext' Hk Hq Hp Hr')
      as (Hw & _). by rewrite Hw, Hlen.
  - intros Hp s'.
    assert (Hlog := stream_unready_log config s key method request spanContext t1 t2 e
                      Hk Hq Hp Hr).
    cbn zeta in Hlog. fold c s' in Hlog.
    assert (Hs' : is_ready key s' = false /\ length (calls s') = S c /\
                  pendingStreams s' = pendingStreams s).
    { subst s' c. unfold stream_unready. unfold is_ready in Hr.
      turn. rewrite (install_stream config key method Hk Hq Hp). mstep.
      turn. turn. rewrite Hr. mstep. turn. turn. rewrite run_nil. cbn.
      split; [exact Hr|]. split; [|reflexivity]. rewrite ?length_insert, length_app. cbn. lia. }
    destruct Hs' as (Hr' & Hlen & Hpend).
    rewrite Hlog. split; [reflexivity|]. split; [exact Hpend|].
    split; [cbn; by rewrite decide_True|]. split; [exact Hr'|].
    rewrite run_cons, run_cons, run_nil.
    set (s1 := exec (step config (Invoke key request' spanContext')) s').
    assert (H1 : log s1 = log s' /\ is_ready key s1 = false /\
                 calls s1 !! S c
                 = Some (Streaming key method (GenSuspendedStart request' spanContext') 0 None)).
    { subst s1. mstep. rewrite (install_stream config key method Hk Hq Hp). mstep.
      split; [reflexivity|]. split; [exact Hr'|]. rewrite <- Hlen.
      apply lookup_snoc_length. }
    destruct H1 as (Hl1 & Hr1 & Hc1).
    pose proof (next_unready_waits s1 (S c) key method request' spanContext' Hc1 Hr1) as Hw.
    unfold since in *. by rewrite <- Hl1.
Qed.

(** ** The log only grows *)

Lemma step_appends (ev : event) (s : state) :
  log (exec (step config ev) s) = log s ++ since s (exec (step config ev) s).
Proof.
  assert (H : exists d, log (exec (step config ev) s) = log s ++ d).
  { destruct ev; mcases;
      first [ by exists []; rewrite app_nil_r
            | eexists; cbn; rewrite <- ?app_assoc; reflexivity ]. }
  destruct H as [d Hd]. by rewrite (since_app _ _ _ Hd).
Qed.

Lemma run_appends (evs : list event) (s : state) :
  log (run config evs s) = log s ++ since s (run config evs s).
Proof.
  revert s. induction evs as [|ev evs IH]; intros s.
  - rewrite run_nil. by rewrite since_same, app_nil_r.
  - rewrite run_cons.
    assert (E : log (run config evs (exec (step config ev) s))
                = log s ++ (since s (exec (step config ev) s)
                            ++ since (exec (step config ev) s)
                                 (run config evs (exec (step config ev) s)))).
    { rewrite IH. rewrite step_appends at 1. by rewrite <- app_assoc. }
    by rewrite (since_app _ _ _ E).
Qed.

Lemma since_step (s s1 : state) (ev : event) :
  log s1 = log s ++ since s s1 ->
  since s (exec (step config ev) s1) = since s s1 ++ since s1 (exec (step config ev) s1).
Proof.
  intros H. apply since_app. rewrite step_appends. rewrite H at 1.
  by rewrite <- app_assoc.
Qed.

Lemma ready_callback_unary (s : state) (c : nat) (key : string)
    (method : MethodDefinition) (request : jsval) (span : nat) (startTime : Z) :
  calls s !! c = Some (UnaryAwaitingReady key method request span startTime) ->
  let s' := exec (step config (ReadyCallback c None)) s in
  is_ready key s' = true /\
  unary_requests (since s s')
  = [(c, method, request, Metadata_of (tracer_inject (tracer s) span))] /\
  calls s' = <[c := UnaryInFlight method span startTime]> (calls s) /\
  tracer s' = tracer s.
Proof.
  intros Hc s'. subst s'. mstep. rewrite Hc. mstep.
  split; [by rewrite lookup_insert_eq|]. split; [read_log; reflexivity|]. done.
Qed.

(** X10. The readiness wait is started per call, not per method: a call that
    finds the flag of its method unset starts a wait of its own even while
    another call of the method is waiting, and it goes on only when its own
    callback arrives -- the callback of the other call, which sets the flag,
    sends the other call's request and leaves this one suspended. *)
Theorem each_call_waits_for_itself (s : state) (key : string) (method : MethodDefinition)
    (r1 r2 : jsval) (sc1 sc2 : SpanContext) :
  serviceDef config !! key = Some method ->
  requestStream method = false ->
  responseStream method = false ->
  is_ready key s = false ->
  let c := length (calls s) in
  let s2 := run config [Invoke key r1 sc1; Invoke key r2 sc2] s in
  let s3 := exec (step config (ReadyCallback c None)) s2 in
  let s4 := exec (step config (ReadyCallback (S c) None)) s3 in
  waits (since s s2) = [c; S c] /\
  unary_requests (since s s2) = [] /\
  is_ready key s3 = true /\
  unary_requests (since s2 s3)
  = [(c, method, r1, Metadata_of (tracer_inject (tracer s) c))] /\
  calls s3 !! S c = Some (UnaryAwaitingReady key method r2 (S c) (perf_now s)) /\
  unary_requests (since s3 s4)
  = [(S c, method, r2, Metadata_of (tracer_inject (tracer s) (S c)))].
Proof.
  intros Hk Hq Hp Hr c s2 s3 s4.
  set (s1 := exec (step config (Invoke key r1 sc1)) s).
  assert (Es2 : s2 = exec (step config (Invoke key r2 sc2)) s1) by reflexivity.
  destruct (invoke_unready_waits s key method r1 sc1 Hk Hq Hp Hr) as (Hw1 & Hu1 & Hc1 & Hy1).
  fold s1 c in Hw1, Hu1, Hc1, Hy1.
  assert (Hr1 : is_ready key s1 = false) by (unfold is_ready in *; by rewrite Hy1).
  destruct (invoke_unready_waits s1 key method r2 sc2 Hk Hq Hp Hr1) as (Hw2 & Hu2 & Hc2 & Hy2).
  rewrite <- Es2 in Hw2, Hu2, Hc2, Hy2.
  assert (Hlen1 : length (calls s1) = S c) by (rewrite Hc1, length_app; cbn; lia).
  assert (Hp1 : perf_now s1 = perf_now s /\ tracer s1 = tracer s).
  { subst s1. mstep. rewrite (install_unary config key method Hk Hq Hp). mstep.
    unfold is_ready in Hr. rewrite Hr. by mstep. }
  destruct Hp1 as [Hp1 Ht1].
  assert (Ht2 : tracer s2 = tracer s).
  { rewrite Es2, <- Ht1. apply step_keeps_context. done. }
  rewrite Hlen1, Hp1 in Hc2. rewrite Hlen1 in Hw2.
  assert (Hs2 : since s s2 = since s s1 ++ since s1 s2).
  { rewrite Es2. apply since_step. apply step_appends. }
  assert (Hl0 : calls s2 !! c = Some (UnaryAwaitingReady key method r1 c (perf_now s))).
  { rewrite Hc2, Hc1. rewrite lookup_app_l by (rewrite length_app; cbn; lia).
    apply lookup_snoc_length. }
  destruct (ready_callback_unary s2 c key method r1 c (perf_now s) Hl0)
    as (Hy3 & Hu3 & Hc3 & Ht3).
  fold s3 in Hy3, Hu3, Hc3, Ht3.
  assert (Hl1 : calls s3 !! S c = Some (UnaryAwaitingReady key method r2 (S c) (perf_now s))).
  { rewrite Hc3, list_lookup_insert_ne by lia. rewrite Hc2, <- Hlen1.
    apply lookup_snoc_length. }
  destruct (ready_callback_unary s3 (S c) key method r2 (S c) (perf_now s) Hl1)
    as (_ & Hu4 & _).
  fold s4 in Hu4.
  split; [rewrite Hs2; unfold waits in *; by rewrite omap_app, Hw1, Hw2|].
  split; [rewrite Hs2; unfold unary_requests in *; by rewrite omap_app, Hu1, Hu2|].
  split; [exact Hy3|]. split; [by rewrite Hu3, Ht2|]. split; [exact Hl1|].
  by rewrite Hu4, Ht3, Ht2.
Qed.

(** ** What the transport is handed *)

(** X11. The request of a call reaches the transport untouched: a unary call
    that is answered made exactly one [makeUnaryRequest] and no stream
    request, a streaming call that is open made exactly one
    [makeServerStreamRequest] and no unary request; either carries the
    method's descriptor (path and codecs), the caller's request value and the
    headers that the tracer injects for the call's span. *)
Theorem request_passes_through (s : state) (key : string) (method : MethodDefinition)
    (request : jsval) (spanContext : SpanContext) (t1 t2 : Z * Z) :
  serviceDef config !! key = Some method ->
  requestStream method = false ->
  let c := length (calls s) in
  let sent := [(c, method, request, Metadata_of (tracer_inject (tracer s) c))] in
  (responseStream method = false ->
   forall error value,
     let d := since s (run config (unary_exchange s key request spanContext c t1 t2
                                     error value) s) in
     unary_requests d = sent /\ stream_requests d = []) /\
  (responseStream method = true ->
   let d := since s (run config (stream_opening s key request spanContext c t1 t2) s) in
   stream_requests d = sent /\ unary_requests d = []).
Proof.
  intros Hk Hq c sent. subst c sent. split.
  - intros Hp error value d. subst d.
    rewrite (unary_exchange_log config s key method request spanContext t1 t2 error value
               Hk Hq Hp).
    destruct (is_ready key s), error; split; reflexivity.
  - intros Hp d. subst d.
    destruct (stream_opening_run config s key method request spanContext t1 t2 Hk Hq Hp)
      as (_ & Hl).
    rewrite (since_app _ _ _ Hl).
    destruct (is_ready key s); split; reflexivity.
Qed.

(** ** Timing samples *)

Lemma Math_round_bounds (us : Z) :
  (1000 * Math_round us - 500 <= us < 1000 * Math_round us + 500)%Z.
Proof.
  unfold Math_round.
  pose proof (Z.div_mod (us + 500) 1000 ltac:(lia)) as H1.
  pose proof (Z.mod_pos_bound (us + 500) 1000 ltac:(lia)) as H2. lia.
Qed.

Lemma Math_round_nonneg (us : Z) : (0 <= us)%Z -> (0 <= Math_round us)%Z.
Proof. intros H. unfold Math_round. apply Z.div_pos; lia. Qed.

(** X12. The timing sample of a unary call is the time on the
    [performance] clock from the invocation to the transport's callback, the
    readiness wait included, rounded to the millisecond: it is off by at most
    half a millisecond, and it is not negative when the clock does not run
    backwards. *)
Theorem unary_timing_spans_the_call (s : state) (key : string) (method : MethodDefinition)
    (request : jsval) (spanContext : SpanContext) (t1 t2 : Z * Z)
    (error : option Error) (value : jsval) :
  serviceDef config !! key = Some method ->
  requestStream method = false ->
  responseStream method = false ->
  let c := length (calls s) in
  let elapsed := (t1.2 + t2.2)%Z in
  exists sample,
    timings (since s (run config (unary_exchange s key request spanContext c t1 t2
                                    error value) s))
    = [sample] /\
    sample = Math_round elapsed /\
    (1000 * sample - 500 <= elapsed < 1000 * sample + 500)%Z /\
    ((0 <= elapsed)%Z -> (0 <= sample)%Z).
Proof.
  intros Hk Hq Hp c elapsed. subst c elapsed.
  exists (Math_round (t1.2 + t2.2)).
  rewrite (unary_exchange_log config s key method request spanContext t1 t2 error value
             Hk Hq Hp).
  split.
  - destruct (is_ready key s), error; cbn; do 2 f_equal; lia.
  - split; [done|]. split; [apply Math_round_bounds|apply Math_round_nonneg].
Qed.

Lemma step_clock (ev : event) (s : state) :
  perf_now (exec (step config ev) s)
  = (perf_now s + match ev with Tick _ us => us | _ => 0 end)%Z.
Proof. destruct ev; mcases; lia. Qed.

Lemma run_clock (evs : list event) (s : state) :
  perf_now (run config evs s) = (perf_now s + elapsed_us evs)%Z.
Proof.
  revert s. induction evs as [|ev evs IH]; intros s.
  - rewrite run_nil. cbn. lia.
  - rewrite run_cons, IH, step_clock. destruct ev; unfold elapsed_us; cbn [foldr]; lia.
Qed.

(** X13. The timing sample of a streaming call starts at the first
    [next()], where the body of the generator starts, not at the invocation:
    it is the time on the [performance] clock from the consumer's first
    request to the transport's ["end"] or ["error"], rounded to the
    millisecond.  What passes between the invocation and the first request, and
    after the transport's last word, is not in it. *)
Theorem stream_timing_starts_at_first_next (s : state) (key : string)
    (method : MethodDefinition) (request : jsval) (spanContext : SpanContext)
    (t1 t2 : Z * Z) (flow rest : list event) (fin : stream_event) :
  serviceDef config !! key = Some method ->
  requestStream method = false ->
  responseStream method = true ->
  let c := length (calls s) in
  Forall (flowing c) flow ->
  Forall (consuming c) rest ->
  terminal_event fin ->
  timings (since s (run config (stream_opening s key request spanContext c t1 t2
                                ++ flow ++ [StreamEvent c fin] ++ rest) s))
  = [Math_round (t2.2 + elapsed_us flow)].
Proof.
  intros Hk Hq Hp c Hflow Hrest Hfin.
  destruct (stream_opening_run config s key method request spanContext t1 t2 Hk Hq Hp)
    as (Hc1 & _).
  destruct (stream_opening_views config s key method request spanContext t1 t2 Hk Hq Hp)
    as (d0 & Hl0 & _ & _ & _ & _ & _ & Ht0 & _).
  fold c in Hc1, Hl0.
  set (opening := stream_opening s key request spanContext c t1 t2) in *.
  set (s1 := run config opening s) in *.
  assert (Hp1 : perf_now s1 = (perf_now s + t1.2 + t2.2)%Z).
  { subst s1 opening. rewrite run_clock. unfold stream_opening.
    destruct (is_ready key s); unfold elapsed_us; cbn [app foldr]; lia. }
  rewrite !run_app. fold s1.
  destruct (flowing_run config c key method c _ flow s1 1 [] Hflow Hc1)
    as (Hc2 & XA & HlA & _).
  cbn [app] in Hc2.
  assert (Hp2 : perf_now (run config flow s1) = (perf_now s1 + elapsed_us flow)%Z)
    by apply run_clock.
  set (s2 := run config flow s1) in *.
  rewrite run_cons, run_nil.
  destruct fin as [v| |e|]; cbn in Hfin; try done.
  - destruct (end_turn config c key method c _ s2 _ _ Hc2) as (Hc3 & XB & HlB & _).
    set (s3 := exec (step config (StreamEvent c End)) s2) in *.
    destruct (consuming_run config c key method c _ rest s3 _ _ _ Hrest Hc3)
      as (XC & HlC & _).
    erewrite since_app
      by (rewrite HlC, HlB, HlA, Hl0; rewrite <- !app_assoc; reflexivity).
    unfold timings in *. rewrite !omap_app, Ht0.
    rewrite !omap_Settle_None by done. cbn. do 2 f_equal. lia.
  - destruct (error_turn config c key method c _ s2 _ _ e Hc2) as (Hc3 & XB & HlB & _).
    set (s3 := exec (step config (StreamEvent c (Error_event e))) s2) in *.
    destruct (consuming_run config c key method c _ rest s3 _ _ _ Hrest Hc3)
      as (XC & HlC & _).
    erewrite since_app
      by (rewrite HlC, HlB, HlA, Hl0; rewrite <- !app_assoc; reflexivity).
    unfold timings in *. rewrite !omap_app, Ht0.
    rewrite !omap_Settle_None by done. cbn. do 2 f_equal. lia.
Qed.

(** ** After [dispose()] *)

Lemma step_ignores_log (l : list effect) (ev : event) (s : state) :
  let s1 := with_log l s in
  since s1 (exec (step config ev) s1) = since s (exec (step config ev) s) /\
  calls (exec (step config ev) s1) = calls (exec (step config ev) s) /\
  ready (exec (step config ev) s1) = ready (exec (step config ev) s) /\
  pendingStreams (exec (step config ev) s1) = pendingStreams (exec (step config ev) s).
Proof.
  intros s1. subst s1. unfold with_log.
  destruct ev; mcases; (split; [|done]);
    repeat (first [ rewrite since_same by reflexivity
                  | erewrite since_app by (cbn; rewrite <- ?app_assoc; reflexivity) ]);
    reflexivity.
Qed.

(** X14. [dispose()] installs no guard: it changes nothing that the proxy
    ever looks at, so whatever is asked of the proxy afterwards -- a new
    call, the next value of a sequence, a callback of the transport -- is
    carried out exactly as it would have been without it. *)
Theorem dispose_installs_no_guard (s : state) (ev : event) :
  let s1 := exec (step config Dispose) s in
  since s1 (exec (step config ev) s1) = since s (exec (step config ev) s) /\
  calls (exec (step config ev) s1) = calls (exec (step config ev) s) /\
  ready (exec (step config ev) s1) = ready (exec (step config ev) s) /\
  pendingStreams (exec (step config ev) s1) = pendingStreams (exec (step config ev) s).
Proof.
  intros s1.
  assert (E : s1 = with_log (log s1) s).
  { subst s1. mstep. unfold with_log, set_log. cbn. by destruct s. }
  rewrite E. apply step_ignores_log.
Qed.

(** ** A stream's life in the registry *)

Lemma wired_turn_keeps_registry (s : state) (c : nat) (key : string)
    (method : MethodDefinition) (demand : nat) (w : wiring) (ev : event) :
  calls s !! c = Some (Streaming key method GenDelegating demand (Some w)) ->
  flowing c ev \/ (exists fin, terminal_event fin /\ ev = StreamEvent c fin) ->
  pendingStreams (exec (step config ev) s) = pendingStreams s.
Proof.
  intros Hc [Hev|(fin & Hfin & ->)].
  - destruct ev as [| c' | | | | c' [v| | |] | | |]; cbn in Hev; try done;
      try subst c'; mstep; rewrite ?Hc; by mcases.
  - destruct fin; cbn in Hfin; try done; mstep; rewrite Hc; by mcases.
Qed.

Lemma flowing_keeps_registry (c : nat) (key : string) (method : MethodDefinition)
    (span : nat) (startTime : Z) (evs : list event) (s : state) (n : nat)
    (chunks : list jsval) :
  Forall (flowing c) evs ->
  calls s !! c = Some (stream_record key method span startTime n chunks TOpen) ->
  pendingStreams (run config evs s) = pendingStreams s.
Proof.
  intros Hevs. revert s n chunks.
  induction Hevs as [|ev evs Hev Hevs IH]; intros s n chunks Hc; [done|].
  rewrite run_cons.
  assert (Hreg : pendingStreams (exec (step config ev) s) = pendingStreams s).
  { eapply wired_turn_keeps_registry; [exact Hc|by left]. }
  destruct ev as [| c' | | | | c' [v| | |] | | |]; cbn in Hev; try done; try subst c'.
  - destruct (next_turn config c key method span startTime s n chunks TOpen Hc) as (Hc1 & _).
    rewrite (IH _ _ _ Hc1). exact Hreg.
  - destruct (data_turn config c key method span startTime s n chunks v Hc) as (Hc1 & _).
    rewrite (IH _ _ _ Hc1). exact Hreg.
  - destruct (tick_turn config c s _ ms us Hc) as (Hc1 & _).
    rewrite (IH _ _ _ Hc1). exact Hreg.
Qed.

(** X15. Registering a stream and its ["close"] event undo each other.  From
    a state the proxy can reach, a stream that is opened, carries chunks to
    its consumer, is ended or failed by the transport and is then closed
    leaves the registry exactly as it was before the call; in between, the
    registry holds it. *)
Theorem closed_stream_leaves_registry_as_it_was (s : state) (key : string)
    (method : MethodDefinition) (request : jsval) (spanContext : SpanContext)
    (t1 t2 : Z * Z) (flow : list event) (fin : stream_event) :
  reachable config s ->
  serviceDef config !! key = Some method ->
  requestStream method = false ->
  responseStream method = true ->
  let c := length (calls s) in
  Forall (flowing c) flow ->
  terminal_event fin ->
  let opening := stream_opening s key request spanContext c t1 t2 in
  (c ∉ pendingStreams s) /\
  (c ∈ pendingStreams (run config (opening ++ flow ++ [StreamEvent c fin]) s)) /\
  pendingStreams (run config (stream_life s key request spanContext c t1 t2 flow fin) s)
  = pendingStreams s.
Proof.
  intros Hs Hk Hq Hp c Hflow Hfin opening.
  destruct (reachable_registry_ok s Hs) as [_ Hop].
  assert (Hfresh : c ∉ pendingStreams s).
  { intros Hin. destruct (Hop c Hin) as (cl & Hl & _).
    apply lookup_lt_Some in Hl. subst c. lia. }
  destruct (stream_opening_run config s key method request spanContext t1 t2 Hk Hq Hp)
    as (Hc1 & _). fold c opening in Hc1.
  assert (Hreg1 : pendingStreams (run config opening s) = Set_add c (pendingStreams s)).
  { subst opening c. unfold stream_opening.
    pose proof (install_stream config key method Hk Hq Hp) as Hw.
    unfold is_ready. destruct (default false (ready s !! key)) eqn:Hr; cbn [app].
    - turn. rewrite Hw. mstep. turn. turn. rewrite Hr. mstep. turn. by rewrite run_nil.
    - turn. rewrite Hw. mstep. turn. turn. rewrite Hr. mstep. turn. turn.
      by rewrite run_nil. }
  set (s1 := run config opening s) in *.
  destruct (flowing_run config c key method c _ flow s1 1 [] Hflow Hc1) as (Hc2 & _).
  pose proof (flowing_keeps_registry c key method c _ flow s1 1 [] Hflow Hc1) as Hreg2.
  cbn [app] in Hc2. set (s2 := run config flow s1) in *.
  set (s3 := exec (step config (StreamEvent c fin)) s2).
  assert (H3 : pendingStreams s3 = pendingStreams s2 /\
               exists cl, calls s3 !! c = Some cl /\ opened cl).
  { subst s3. destruct fin as [v| |e|]; cbn in Hfin; try done.
    - destruct (end_turn config c key method c _ s2 _ _ Hc2) as (Hc3 & _).
      split; [|eexists; split; [exact Hc3|]; unfold stream_record; by case_decide].
      eapply wired_turn_keeps_registry; [exact Hc2|right; by exists End].
    - destruct (error_turn config c key method c _ s2 _ _ e Hc2) as (Hc3 & _).
      split; [|eexists; split; [exact Hc3|]; unfold stream_record; by case_decide].
      eapply wired_turn_keeps_registry; [exact Hc2|right; by exists (Error_event e)]. }
  destruct H3 as (Hreg3 & cl & Hc3 & Ho3).
  assert (E3 : run config (opening ++ flow ++ [StreamEvent c fin]) s = s3).
  { rewrite !run_app. fold s1 s2. by rewrite run_cons, run_nil. }
  split; [exact Hfresh|]. split.
  - rewrite E3, Hreg3, Hreg2, Hreg1. apply elem_of_Set_add. by left.
  - unfold stream_life. fold opening.
    change [StreamEvent c fin; StreamEvent c Close]
      with ([StreamEvent c fin] ++ [StreamEvent c Close]).
    rewrite !app_assoc, run_app, <- !app_assoc, E3, run_cons, run_nil.
    destruct cl as [| | | |k m ph d wd]; try done.
    destruct ph, wd as [w'|]; try done;
      mstep; rewrite Hc3; mstep; rewrite Hreg3, Hreg2, Hreg1;
      by apply Set_delete_add_fresh.
Qed.

(** ** What the dashboards see *)

(** X16. Every call that starts -- unary or streaming, whether the
    connection becomes ready or not -- starts exactly one span, named
    ["Grpc Client Call"], as a child of the caller's span context, and gives
    it six tags: sampling priority 1, span kind [client], the component name,
    the path of the method as the call, the configured endpoint as the host,
    and the flavor [grpc].  No other tag is ever set. *)
Theorem call_span_is_tagged (s : state) (key : string) (method : MethodDefinition)
    (request : jsval) (spanContext : SpanContext) (t1 t2 : Z * Z) :
  serviceDef config !! key = Some method ->
  requestStream method = false ->
  let c := length (calls s) in
  let tagged (d : list effect) :=
    span_starts d = [(tracer_id (tracer s), c, "Grpc Client Call", spanContext)] /\
    span_tags d = [(c, SAMPLING_PRIORITY, TagNum 1);
                   (c, SPAN_KIND, TagStr "client");
                   (c, COMPONENT, TagStr "cookie-cutter-grpc");
                   (c, RpcCall, TagStr (path method));
                   (c, RpcHost, TagStr (endpoint config));
                   (c, RpcFlavor, TagStr "grpc")] in
  (responseStream method = false ->
   (forall error value,
      tagged (since s (run config (unary_exchange s key request spanContext c t1 t2
                                     error value) s))) /\
   (is_ready key s = false ->
    forall e, tagged (since s (run config (unary_unready key request spanContext c t1 e) s)))) /\
  (responseStream method = true ->
   tagged (since s (run config (stream_opening s key request spanContext c t1 t2) s)) /\
   (is_ready key s = false ->
    forall e,
      tagged (since s (run config (stream_unready key request spanContext c t1 t2 e) s)))).
Proof.
  intros Hk Hq c tagged. subst c tagged. split.
  - intros Hp. split.
    + intros error value.
      rewrite (unary_exchange_log config s key method request spanContext t1 t2 error
                 value Hk Hq Hp).
      destruct (is_ready key s), error; split; reflexivity.
    + intros Hr e.
      rewrite (unary_unready_log config s key method request spanContext t1 e Hk Hq Hp Hr).
      split; reflexivity.
  - intros Hp. split.
    + destruct (stream_opening_run config s key method request spanContext t1 t2 Hk Hq Hp)
        as (_ & Hl).
      rewrite (since_app _ _ _ Hl). destruct (is_ready key s); split; reflexivity.
    + intros Hr e.
      rewrite (stream_unready_log config s key method request spanContext t1 t2 e
                 Hk Hq Hp Hr).
      split; reflexivity.
Qed.

(** X17. The three metrics of a unary call carry the path of the method and
    the configured endpoint: [request_sent] and the timing sample carry just
    these two tags, [request_processed] carries them and the result,
    [success] or [error] as the transport's callback says. *)
Theorem unary_metrics_are_tagged (s : state) (key : string) (method : MethodDefinition)
    (request : jsval) (spanContext : SpanContext) (t1 t2 : Z * Z)
    (error : option Error) (value : jsval) :
  serviceDef config !! key = Some method ->
  requestStream method = false ->
  responseStream method = false ->
  let c := length (calls s) in
  let d := since s (run config (unary_exchange s key request spanContext c t1 t2
                                  error value) s) in
  increments RequestSent d
  = [[("path", path method); ("endpoint", endpoint config)]] /\
  increments RequestProcessed d
  = [[("path", path method); ("endpoint", endpoint config);
      ("result", if error is Some _ then "error" else "success")]] /\
  timing_tags d = [[("path", path method); ("endpoint", endpoint config)]] /\
  increments RequestProcessingTime d = [].
Proof.
  intros Hk Hq Hp c d. subst c d.
  rewrite (unary_exchange_log config s key method request spanContext t1 t2 error value
             Hk Hq Hp).
  destruct (is_ready key s), error; xviews; repeat split.
Qed.

End Further.

(** * Concrete runs, continued *)

(** [Echo] was invoked before [initialize]; its answer is counted by the
    sink of the context that [initialize] brought. *)
Lemma initialize_rebinds_instrumentation_witness :
  Forall (eq 9)
    (metric_sinks
       (since (run Demo.config Runs.initialized_late
                 (exec (step Demo.config (Initialize Runs.hosted)) Demo.echo_waiting))
          (exec (step Demo.config (UnaryCallback 0 None (VStr "hello")))
             (run Demo.config Runs.initialized_late
                (exec (step Demo.config (Initialize Runs.hosted)) Demo.echo_waiting))))).
Proof.
  destruct (initialize_rebinds_instrumentation Demo.config Demo.echo_waiting Runs.hosted
              Runs.initialized_late (UnaryCallback 0 None (VStr "hello"))) as (H & _).
  - repeat constructor; discriminate.
  - exact H.
Defined.

Example late_initialize_mixes_tracers :
  tracers_used (since Demo.fresh Demo.echo_waiting) = [0] /\
  tracers_used
    (since (exec (step Demo.config (Initialize Runs.hosted)) Demo.echo_waiting)
       (run Demo.config [Tick 5 5000; ReadyCallback 0 None]
          (exec (step Demo.config (Initialize Runs.hosted)) Demo.echo_waiting)))
  = [7] /\
  metric_sinks
    (since (run Demo.config Runs.initialized_late
              (exec (step Demo.config (Initialize Runs.hosted)) Demo.echo_waiting))
       (exec (step Demo.config (UnaryCallback 0 None (VStr "hello")))
          (run Demo.config Runs.initialized_late
             (exec (step Demo.config (Initialize Runs.hosted)) Demo.echo_waiting))))
  = [9; 9].
Proof. vm_compute. repeat split; reflexivity. Qed.

(** The stream on [Feed] has ended; an ["error"] event that follows is
    counted as well. *)
Lemma error_event_always_counted_witness :
  increments RequestProcessed
    (since Runs.feed_ended
       (exec (step Demo.config (StreamEvent 0 (Error_event Demo.unavailable)))
          Runs.feed_ended))
  = [[("path", "/demo.Service/Feed"); ("result", "error"); ("endpoint", "localhost:50051")]].
Proof.
  destruct (error_event_always_counted Demo.config Runs.feed_ended 0 "Feed" Demo.Feed
              GenCompleted 0
              {| w_pipe := {| queue := []; term := TClosed |}; w_span := 0;
                 w_startTime := 6000 |} Demo.unavailable) as (X & HX).
  - vm_compute. reflexivity.
  - rewrite HX. unfold increments. rewrite omap_app.
    rewrite omap_Settle_None by (intros ?; reflexivity). vm_compute. reflexivity.
Defined.

(** The consumer of [Feed] gives up after its first chunk. *)
Lemma abandoned_stream_not_cancelled_witness :
  since Runs.feed_served (exec (step Demo.config (Return 0)) Runs.feed_served)
  = [Settle 0 IterDone] /\
  pendingStreams (exec (step Demo.config (Return 0)) Runs.feed_served) = [0].
Proof.
  destruct (abandoned_stream_not_cancelled Demo.config Runs.feed_served 0 "Feed" Demo.Feed
              {| w_pipe := new_AsyncPipe; w_span := 0; w_startTime := 6000 |})
    as (H1 & H2 & _).
  - vm_compute. reflexivity.
  - split; [exact H1|]. rewrite H2. vm_compute. reflexivity.
Defined.

(** The connection becomes ready for [Echo]; the call on [Ping] is not
    touched. *)
Lemma turn_concerns_one_call_witness :
  calls (exec (step Demo.config (ReadyCallback 0 None)) Runs.two_waiting) !! 1
  = calls Runs.two_waiting !! 1 /\
  settlements 1
    (since Runs.two_waiting (exec (step Demo.config (ReadyCallback 0 None)) Runs.two_waiting))
  = [].
Proof.
  apply (turn_concerns_one_call Demo.config Runs.two_waiting (ReadyCallback 0 None) 0 1).
  - reflexivity.
  - lia.
Defined.

(** The transport ends the stream on [Feed]: the stream stays registered. *)
Lemma registry_changes_only_by_open_and_close_witness :
  0 ∈ pendingStreams (exec (step Demo.config (StreamEvent 0 End)) Demo.feed_open).
Proof.
  destruct (registry_changes_only_by_open_and_close Demo.config Demo.feed_open
              (StreamEvent 0 End) 0) as (H & _).
  apply H.
  - vm_compute. apply list_elem_of_here.
  - discriminate.
Defined.

(** Disposal with the stream on [Feed] pending. *)
Lemma dispose_cancels_each_stream_once_witness :
  cancels (since Demo.feed_open (exec (step Demo.config Dispose) Demo.feed_open))
  = pendingStreams Demo.feed_open.
Proof.
  destruct (dispose_cancels_each_stream_once Demo.config Demo.feed_open) as (H & _).
  - exists Demo.context, 100%Z, 5000%Z,
      (stream_opening Demo.fresh "Feed" (VStr "hi") "ctx" 0 (1, 1000)%Z (2, 2000)%Z).
    reflexivity.
  - exact H.
Defined.

(** The readiness wait of a call on [Echo] fails; the next call on [Echo]
    waits again. *)
Lemma unready_call_sends_nothing_witness :
  unary_requests (since Demo.fresh Demo.echo_unready) = [] /\
  waits (since Demo.echo_unready
           (exec (step Demo.config (Invoke "Echo" (VStr "again") "ctx")) Demo.echo_unready))
  = [1].
Proof.
  destruct (unready_call_sends_nothing Demo.config Demo.fresh "Echo" Demo.Echo
              (VStr "hi") (VStr "again") "ctx" "ctx" (10, 10000)%Z (0, 0)%Z Demo.unavailable)
    as (H & _).
  - vm_compute. reflexivity.
  - reflexivity.
  - vm_compute. reflexivity.
  - destruct (H eq_refl) as (H1 & _ & _ & H2). split; [exact H1 | exact H2].
Defined.

(** Two calls on [Echo] before the connection is ready. *)
Lemma each_call_waits_for_itself_witness :
  waits (since Demo.fresh
           (run Demo.config [Invoke "Echo" (VStr "a") "ctx"; Invoke "Echo" (VStr "b") "ctx"]
              Demo.fresh))
  = [0; 1].
Proof.
  destruct (each_call_waits_for_itself Demo.config Demo.fresh "Echo" Demo.Echo
              (VStr "a") (VStr "b") "ctx" "ctx") as (H & _).
  - vm_compute. reflexivity.
  - reflexivity.
  - reflexivity.
  - vm_compute. reflexivity.
  - exact H.
Defined.

(** What the transport is handed for a call on [Echo]. *)
Lemma request_passes_through_witness :
  unary_requests
    (since Demo.fresh
       (run Demo.config
          (unary_exchange Demo.fresh "Echo" (VStr "hi") "ctx" 0 (5, 5000)%Z (7, 7400)%Z
             None (VStr "hello"))
          Demo.fresh))
  = [(0, Demo.Echo, VStr "hi", Metadata_of [("x-trace-id", "t0")])].
Proof.
  destruct (request_passes_through Demo.config Demo.fresh "Echo" Demo.Echo (VStr "hi") "ctx"
              (5, 5000)%Z (7, 7400)%Z) as (H & _).
  - vm_compute. reflexivity.
  - reflexivity.
  - destruct (H eq_refl None (VStr "hello")) as (H1 & _). exact H1.
Defined.

(** 5 ms of waiting and 7.4 ms for the answer: the sample is 12. *)
Lemma unary_timing_spans_the_call_witness :
  exists sample,
    timings
      (since Demo.fresh
         (run Demo.config
            (unary_exchange Demo.fresh "Echo" (VStr "hi") "ctx" 0 (5, 5000)%Z (7, 7400)%Z
               None (VStr "hello"))
            Demo.fresh))
    = [sample] /\ sample = 12%Z.
Proof.
  destruct (unary_timing_spans_the_call Demo.config Demo.fresh "Echo" Demo.Echo (VStr "hi")
              "ctx" (5, 5000)%Z (7, 7400)%Z None (VStr "hello"))
    as (sample & H1 & H2 & _).
  - vm_compute. reflexivity.
  - reflexivity.
  - reflexivity.
  - exists sample. split; [exact H1|]. rewrite H2. reflexivity.
Defined.

(** The stream on [Feed]: 1 ms before the first request, 2 ms to open, 1 ms
    of flow; the sample is 3. *)
Lemma stream_timing_starts_at_first_next_witness :
  timings
    (since Demo.fresh
       (run Demo.config
          (stream_opening Demo.fresh "Feed" (VStr "hi") "ctx" 0 (1, 1000)%Z (2, 2000)%Z
           ++ Demo.feed_flow ++ [StreamEvent 0 End] ++ [Tick 9 9000; Next 0])
          Demo.fresh))
  = [3%Z].
Proof.
  apply (stream_timing_starts_at_first_next Demo.config Demo.fresh "Feed" Demo.Feed
           (VStr "hi") "ctx" (1, 1000)%Z (2, 2000)%Z Demo.feed_flow [Tick 9 9000; Next 0] End).
  - vm_compute. reflexivity.
  - reflexivity.
  - reflexivity.
  - repeat constructor.
  - repeat constructor.
  - exact I.
Defined.

(** The stream on [Feed], from its opening to its ["close"]. *)
Lemma closed_stream_leaves_registry_as_it_was_witness :
  pendingStreams
    (run Demo.config
       (stream_life Demo.fresh "Feed" (VStr "hi") "ctx" 0 (1, 1000)%Z (2, 2000)%Z
          Demo.feed_flow End)
       Demo.fresh)
  = pendingStreams Demo.fresh.
Proof.
  destruct (closed_stream_leaves_registry_as_it_was Demo.config Demo.fresh "Feed" Demo.Feed
              (VStr "hi") "ctx" (1, 1000)%Z (2, 2000)%Z Demo.feed_flow End) as (_ & _ & H).
  - exists Demo.context, 100%Z, 5000%Z, []. reflexivity.
  - vm_compute. reflexivity.
  - reflexivity.
  - reflexivity.
  - repeat constructor.
  - exact I.
  - exact H.
Defined.

Example wait_deadline_of_echo :
  wait_deadlines (since Demo.fresh Demo.echo_waiting) = [1100%Z].
Proof. vm_compute. reflexivity. Qed.

Example call_after_dispose :
  unary_requests
    (since (exec (step Demo.config Dispose) Demo.echo_ready)
       (exec (step Demo.config (Invoke "Echo" (VStr "late") "ctx"))
          (exec (step Demo.config Dispose) Demo.echo_ready)))
  = [(1, Demo.Echo, VStr "late", Metadata_of [("x-trace-id", "t0")])].
Proof. vm_compute. reflexivity. Qed.

(** The span of a call on [Echo]. *)
Lemma call_span_is_tagged_witness :
  span_starts (since Demo.fresh Demo.echo_unready) = [(0, 0, "Grpc Client Call", "ctx")] /\
  span_tags (since Demo.fresh Demo.echo_unready)
  = [(0, SAMPLING_PRIORITY, TagNum 1);
     (0, SPAN_KIND, TagStr "client");
     (0, COMPONENT, TagStr "cookie-cutter-grpc");
     (0, RpcCall, TagStr "/demo.Service/Echo");
     (0, RpcHost, TagStr "localhost:50051");
     (0, RpcFlavor, TagStr "grpc")].
Proof.
  destruct (call_span_is_tagged Demo.config Demo.fresh "Echo" Demo.Echo (VStr "hi") "ctx"
              (10, 10000)%Z (0, 0)%Z) as (H & _).
  - vm_compute. reflexivity.
  - reflexivity.
  - destruct (H eq_refl) as (_ & H2). apply (H2 eq_refl Demo.unavailable).
Defined.

(** The metrics of a call on [Echo] that fails. *)
Lemma unary_metrics_are_tagged_witness :
  increments RequestProcessed
    (since Demo.fresh
       (run Demo.config
          (unary_exchange Demo.fresh "Echo" (VStr "hi") "ctx" 0 (5, 5000)%Z (7, 7400)%Z
             (Some Demo.unavailable) VUndefined)
          Demo.fresh))
  = [[("path", "/demo.Service/Echo"); ("endpoint", "localhost:50051"); ("result", "error")]].
Proof.
  destruct (unary_metrics_are_tagged Demo.config Demo.fresh "Echo" Demo.Echo (VStr "hi")
              "ctx" (5, 5000)%Z (7, 7400)%Z (Some Demo.unavailable) VUndefined)
    as (_ & H & _).
  - vm_compute. reflexivity.
  - reflexivity.
  - reflexivity.
  - exact H.
Defined.
